(** * SciPhi LLM interface: prompt protocol and completion orchestration

    Shallow embedding of [sciphi/interface/llm/sciphi_interface.py].

    - [Py] holds the Python string builtins the module calls
      ([in], [str.find], [str.startswith], [str.endswith], [str.replace],
      [str.split], [str.strip], [re.sub] of a lazy span pattern).
    - [SciPhiFormatter] is the class of the same name: its constants and its
      three static methods.
    - [SciPhiLLMInterface] is the orchestrator: the three entry points over an
      explicit object store, a call trace and the two backend handles.

    A Python [str] is a sequence of code points; here a character is an
    [ascii], read as a code point below 256. *)

From stdpp Require Import base option gmap.
From Stdlib Require Import String Ascii List Bool Arith Lia.
Import ListNotations.
Local Open Scope string_scope.

(** stdpp keeps [simpl] from unfolding string concatenation; the proofs
    below compute on literals. *)
#[local] Arguments String.append !_ _ / : simpl nomatch.

(* ===================================================================== *)
(** * Python string builtins *)
(* ===================================================================== *)

Module Py.

(** The line feed, written [\n] in the source literals. *)
Definition nl : string := String (ascii_of_nat 10) EmptyString.

(** [s[n:]] for [0 <= n]. *)
Fixpoint drop (n : nat) (s : string) : string :=
  match n, s with
  | O, _ => s
  | S _, EmptyString => EmptyString
  | S k, String _ t => drop k t
  end.

(** [s[:n]] for [0 <= n]. *)
Fixpoint take (n : nat) (s : string) : string :=
  match n, s with
  | O, _ => EmptyString
  | S _, EmptyString => EmptyString
  | S k, String c t => String c (take k t)
  end.

(** [s.startswith(pre)]. *)
Fixpoint startswith (pre s : string) : bool :=
  match pre, s with
  | EmptyString, _ => true
  | String _ _, EmptyString => false
  | String a p, String b t => Ascii.eqb a b && startswith p t
  end.

(** [s.endswith(suf)]. *)
Definition endswith (suf s : string) : bool :=
  Nat.leb (String.length suf) (String.length s)
  && String.eqb (drop (String.length s - String.length suf) s) suf.

(** [s.find(sub)]: the index of the first occurrence, [None] for [-1]. *)
Fixpoint find (sub s : string) : option nat :=
  if startswith sub s then Some 0
  else match s with
       | EmptyString => None
       | String _ t => option_map S (find sub t)
       end.

(** [sub in s]. *)
Definition contains (sub s : string) : bool :=
  match find sub s with Some _ => true | None => false end.

(** A matcher tells, for the text that starts at the current position,
    whether a match begins there and how many characters it spans. *)
Definition matcher : Type := string -> option nat.

(** The scan shared by [str.replace] and [re.sub]: left to right, every
    leftmost match (never empty, never overlapping the previous one) is
    replaced by [repl], every other character is kept.  [skip] counts the
    characters of the current match that are still to be passed over. *)
Fixpoint sub_scan (m : matcher) (repl : string) (skip : nat) (s : string)
  : string :=
  match s with
  | EmptyString => EmptyString
  | String c t =>
      match skip with
      | S k => sub_scan m repl k t
      | O =>
          match m s with
          | Some n => repl ++ sub_scan m repl (Nat.pred n) t
          | None => String c (sub_scan m repl 0 t)
          end
      end
  end.

(** Whether a match begins at some position of [s]: [re.search] of the
    pattern of [m] finds something. *)
Fixpoint occurs (m : matcher) (s : string) : bool :=
  match s with
  | EmptyString => false
  | String _ t =>
      match m s with Some _ => true | None => false end || occurs m t
  end.

(** No proper, non-empty suffix of [tok] is a prefix of [tok]: two
    occurrences of [tok] never overlap. *)
Definition unbordered (tok : string) : bool :=
  forallb (fun k => negb (startswith (drop k tok) tok))
    (seq 1 (String.length tok - 1)).

(** The matcher of a literal, non-empty [old]. *)
Definition match_literal (old : string) : matcher :=
  fun s => if startswith old s then Some (String.length old) else None.

(** [s.replace(old, new)] for a non-empty [old] (every call site of the
    module passes a non-empty literal). *)
Definition replace (old new s : string) : string :=
  sub_scan (match_literal old) new 0 s.

(** The matcher of the regular expression
    [re.escape(opening) + ".*?" + re.escape(closing)] under [re.DOTALL]:
    a match begins where [opening] does and runs to the end of the first
    [closing] after it; the dot matches every character, the line feed
    included. *)
Definition match_lazy_span (opening closing : string) : matcher :=
  fun s =>
    if startswith opening s then
      match find closing (drop (String.length opening) s) with
      | Some k => Some (String.length opening + k + String.length closing)
      | None => None
      end
    else None.

(** [re.sub(re.escape(opening) + ".*?" + re.escape(closing), repl, s,
    flags=re.DOTALL)]. *)
Definition re_sub_lazy_span (opening closing repl s : string) : string :=
  sub_scan (match_lazy_span opening closing) repl 0 s.

(** [s.split(sep)] for a non-empty [sep]: [cur] is the piece being read,
    [skip] as in [sub_scan]. *)
Fixpoint split_scan (sep : string) (skip : nat) (cur s : string)
  : list string :=
  match s with
  | EmptyString => [cur]
  | String c t =>
      match skip with
      | S k => split_scan sep k cur t
      | O =>
          if startswith sep s
          then cur :: split_scan sep (Nat.pred (String.length sep))
                                 EmptyString t
          else split_scan sep 0 (cur ++ String c EmptyString) t
      end
  end.

Definition split (sep s : string) : list string :=
  split_scan sep 0 EmptyString s.

(** [c.isspace()] on the code points below 256: the ASCII blanks, the four
    separators 28..31, NEL (133) and the no-break space (160). *)
Definition isspace (c : ascii) : bool :=
  let n := nat_of_ascii c in
  (Nat.leb 9 n && Nat.leb n 13) || (Nat.leb 28 n && Nat.leb n 32)
  || Nat.eqb n 133 || Nat.eqb n 160.

Fixpoint lstrip (s : string) : string :=
  match s with
  | EmptyString => EmptyString
  | String c t => if isspace c then lstrip t else s
  end.

Fixpoint rstrip (s : string) : string :=
  match s with
  | EmptyString => EmptyString
  | String c t =>
      match rstrip t with
      | EmptyString => if isspace c then EmptyString
                       else String c EmptyString
      | r => String c r
      end
  end.

(** [s.strip()]. *)
Definition strip (s : string) : string := rstrip (lstrip s).

(** [c in s] for a character [c]. *)
Fixpoint mentions (c : ascii) (s : string) : bool :=
  match s with
  | EmptyString => false
  | String d t => Ascii.eqb c d || mentions c t
  end.

(** [tok] cannot begin at the first character of [x ++ s], whatever [s]
    is: [x] neither starts with [tok] nor is the beginning of [tok]. *)
Definition never_starts (tok x : string) : bool :=
  negb (startswith tok x) && negb (startswith x tok).

(** No occurrence of [tok] in [a ++ s] begins inside [a], whatever [s]
    is. *)
Fixpoint clear_of (tok a : string) : bool :=
  match a with
  | EmptyString => true
  | String _ t => never_starts tok a && clear_of tok t
  end.

End Py.

(* ===================================================================== *)
(** * The protocol formatter *)
(* ===================================================================== *)

Module SciPhiFormatter.
Import Py.

Definition SYSTEM_PROMPT : string :=
  "### System:" ++ nl ++
  "You are a helpful and informative professor. You give long, accurate, and detailed explanations to student questions. You answer EVERY question that is given to you. You retrieve data multiple times if necessary."
  ++ nl ++ nl.
Definition INSTRUCTION_PREFIX : string := "### Instruction:" ++ nl.
Definition INSTRUCTION_SUFFIX : string := "### Response:" ++ nl.
Definition INIT_PARAGRAPH_TOKEN : string := "<paragraph>".
Definition END_PARAGRAPH_TOKEN : string := "</paragraph>".

Definition RETRIEVAL_TOKEN : string := "[Retrieval]".
Definition IRRELEVANT_TOKEN : string := "[Irrelevant]".
Definition FULLY_SUPPORTED : string := "[Fully supported]".
Definition NO_RETRIEVAL_TOKEN : string := "[No Retrieval]".
Definition EVIDENCE_TOKEN : string := "[Continue to Use Evidence]".
Definition UTILITY_TOKEN : string := "[Utility:5]".
Definition RELEVANT_TOKEN : string := "[Relevant]".
Definition PARTIALLY_SUPPORTED_TOKEN : string := "[Partially supported]".
Definition NO_SUPPORT_TOKEN : string := "[No support / Contradictory]".
Definition END_TOKEN : string := "</s>".

(** [format_prompt]: the f-string
    [{SYSTEM_PROMPT}{INSTRUCTION_PREFIX}\n{input}\n\n{INSTRUCTION_SUFFIX}]. *)
Definition format_prompt (input : string) : string :=
  SYSTEM_PROMPT ++ INSTRUCTION_PREFIX ++ nl ++ input ++ nl ++ nl
  ++ INSTRUCTION_SUFFIX.

(** What [extract_post_prompt] can raise. *)
Inductive extract_error : Type :=
| MissingSuffix (msg : string)   (* the [ValueError] of the guard *)
| SplitIndexError.               (* [IndexError] of the subscript [[1]] *)

(** [extract_post_prompt]: the guard, then element 1 of the split. *)
Definition extract_post_prompt (completion : string)
  : extract_error + string :=
  if negb (contains INSTRUCTION_SUFFIX completion) then
    inl (MissingSuffix
           ("Full Completion does not contain " ++ INSTRUCTION_SUFFIX))
  else
    match nth_error (split INSTRUCTION_SUFFIX completion) 1 with
    | Some piece => inr piece
    | None => inl SplitIndexError
    end.

(** [remove_cruft]: the [re.sub] of the paragraph spans, then the ten
    [str.replace] calls in the order of the source. *)
Definition remove_cruft (result : string) : string :=
  let result :=
    re_sub_lazy_span INIT_PARAGRAPH_TOKEN END_PARAGRAPH_TOKEN "" result in
  replace NO_SUPPORT_TOKEN ""
    (replace END_TOKEN ""
      (replace FULLY_SUPPORTED ""
        (replace PARTIALLY_SUPPORTED_TOKEN ""
          (replace RELEVANT_TOKEN ""
            (replace UTILITY_TOKEN ""
              (replace EVIDENCE_TOKEN ""
                (replace IRRELEVANT_TOKEN ""
                  (replace NO_RETRIEVAL_TOKEN ""
                    (replace RETRIEVAL_TOKEN "" result))))))))).

(** The ten tokens [remove_cruft] replaces, in the order of its calls. *)
Definition control_tokens : list string :=
  [ RETRIEVAL_TOKEN; NO_RETRIEVAL_TOKEN; IRRELEVANT_TOKEN; EVIDENCE_TOKEN;
    UTILITY_TOKEN; RELEVANT_TOKEN; PARTIALLY_SUPPORTED_TOKEN;
    FULLY_SUPPORTED; END_TOKEN; NO_SUPPORT_TOKEN ].

(** Some paragraph-start marker of [s] has a paragraph-end marker after
    it. *)
Definition has_paragraph_span (s : string) : bool :=
  occurs (match_lazy_span INIT_PARAGRAPH_TOKEN END_PARAGRAPH_TOKEN) s.

(** [s] holds no paragraph span and none of the ten tokens. *)
Definition cruft_free (s : string) : bool :=
  negb (has_paragraph_span s)
  && forallb (fun t => negb (contains t s)) control_tokens.

End SciPhiFormatter.

(* ===================================================================== *)
(** * The completion orchestrator *)
(* ===================================================================== *)

Module SciPhiLLMInterface.
Import Py SciPhiFormatter.

Definition ALPACA_CHAT_SYSTEM_PROMPT : string :=
  "Below is a series of instructions from a USER that describes a task, paired with an input that provides further context. The ASSISTANT writes a response that concisely and appropriately completes the request.".

(** A conversation message: the dict with the keys ["role"] and
    ["content"]. *)
Record Message : Type := { role : string; content : string }.

(** What the entry points raise. *)
Inductive Exception : Type :=
| ValueError (msg : string)
| UnboundLocalError (name : string)
| IndexError
| AttributeError.

(** How a call ends.  [OutOfFuel] is the loop still running when the
    fuel of the model is spent; [Wrong] is a reference to an object that
    is not in the store, which no Python run produces. *)
Inductive Outcome (A : Type) : Type :=
| Return (a : A)
| Raise (e : Exception)
| OutOfFuel
| Wrong.
Arguments Return {A} a.
Arguments Raise {A} e.
Arguments OutOfFuel {A}.
Arguments Wrong {A}.

(** References to configuration objects. *)
Definition loc : Type := nat.

Section Interface.
(** The sampling parameters of [GenerationConfig], which this module
    never reads. *)
Context {Sampling : Type}.

(** Modelled from the spec: the class [GenerationConfig] of [sciphi.llm],
    which is not among the sources.  It has a model name and a stop token,
    which the module reads and which may be [None], and sampling parameters
    that are opaque here. *)
Record GenerationConfig : Type :=
  { model_name : option string;
    stop_token : option string;
    sampling : Sampling }.

(** The calls that leave the module, in the order they are made. *)
Inductive Event : Type :=
| InstructCall (prompt : string) (config : GenerationConfig)
| BatchInstructCall (prompts : list string) (config : GenerationConfig)
| ContextsCall (queries : list string)
| Printed (text : string).

(** Modelled from the spec: the model backend [SciPhiLLM] of [sciphi.llm],
    which is not among the sources, with its two operations.  A backend may
    answer differently from call to call: its answer is a function of the
    calls made so far and of its arguments.  It reads the configuration it
    is given and does not write it. *)
Record SciPhiLLM : Type :=
  { get_instruct_completion :
      list Event -> string -> GenerationConfig -> string;
    get_batch_instruct_completion :
      list Event -> list string -> GenerationConfig -> list string }.

(** Modelled from the spec: the retrieval backend [RAGInterface] of
    [sciphi.interface.base], which is not among the sources, with its one
    operation; its answer too is a function of the calls made so far. *)
Record RAGInterface : Type :=
  { get_contexts : list Event -> list string -> list string }.

(** The instance [self]: [self._model] and [self.rag_interface]. *)
Record Self : Type :=
  { _model : SciPhiLLM;
    rag_interface : option RAGInterface }.

(** The state a call runs in: the store of configuration objects and
    the trace of calls made so far. *)
Record State : Type :=
  { heap : gmap loc GenerationConfig;
    trace : list Event }.

(** State and exceptions. *)
Definition M (A : Type) : Type := State -> Outcome A * State.

Definition ret {A} (a : A) : M A := fun st => (Return a, st).

Definition bind {A B} (m : M A) (k : A -> M B) : M B :=
  fun st =>
    match m st with
    | (Return a, st') => k a st'
    | (Raise e, st') => (Raise e, st')
    | (OutOfFuel, st') => (OutOfFuel, st')
    | (Wrong, st') => (Wrong, st')
    end.

Definition raise {A} (e : Exception) : M A := fun st => (Raise e, st).

Definition out_of_fuel {A} : M A := fun st => (OutOfFuel, st).

Local Notation "x <- m ;; k" := (bind m (fun x => k))
  (at level 100, m at next level, k at level 200, right associativity).
Local Notation "m ;;; k" := (bind m (fun _ => k))
  (at level 100, k at level 200, right associativity).

(** Reading the object behind a reference. *)
Definition deref (l : loc) : M GenerationConfig :=
  fun st =>
    match heap st !! l with
    | Some c => (Return c, st)
    | None => (Wrong, st)
    end.

Definition emit (e : Event) : M unit :=
  fun st => (Return tt, {| heap := heap st; trace := trace st ++ [e] |}).

(** [copy(obj)]: a new object with the fields of [obj]. *)
Definition copy (l : loc) : M loc :=
  fun st =>
    match heap st !! l with
    | Some c =>
        let l' := fresh (dom (heap st)) in
        (Return l', {| heap := <[l' := c]> (heap st); trace := trace st |})
    | None => (Wrong, st)
    end.

(** [obj.stop_token = v]. *)
Definition set_stop_token (l : loc) (v : option string) : M unit :=
  fun st =>
    match heap st !! l with
    | Some c =>
        (Return tt,
         {| heap := <[l := {| model_name := model_name c;
                              stop_token := v;
                              sampling := sampling c |}]> (heap st);
            trace := trace st |})
    | None => (Wrong, st)
    end.

(** A computation keeps the objects of the store: what a reference
    pointed to before, it points to after. *)
Definition keeps_objects {A} (m : M A) : Prop :=
  forall st l v,
    heap st !! l = Some v -> heap (snd (m st)) !! l = Some v.

(** A computation only adds to the trace. *)
Definition appends_calls {A} (m : M A) : Prop :=
  forall st, exists later, trace (snd (m st)) = (trace st ++ later)%list.

Variable self : Self.

(** [self.model.get_instruct_completion(prompt, config)]. *)
Definition call_instruct (prompt : string) (config : loc) : M string :=
  c <- deref config ;;
  fun st =>
    (Return (get_instruct_completion (_model self) (trace st) prompt c),
     {| heap := heap st;
        trace := trace st ++ [InstructCall prompt c] |}).

(** [self.model.get_batch_instruct_completion(prompts, config)]. *)
Definition call_batch_instruct (prompts : list string) (config : loc)
  : M (list string) :=
  c <- deref config ;;
  fun st =>
    (Return
       (get_batch_instruct_completion (_model self) (trace st) prompts c),
     {| heap := heap st;
        trace := trace st ++ [BatchInstructCall prompts c] |}).

(** [self.rag_interface.get_contexts(queries)]. *)
Definition call_contexts (queries : list string) : M (list string) :=
  match rag_interface self with
  | None => raise AttributeError
  | Some rag =>
      fun st =>
        (Return (get_contexts rag (trace st) queries),
         {| heap := heap st;
            trace := trace st ++ [ContextsCall queries] |})
  end.

(** The subscript [xs[0]]. *)
Definition first_item (xs : list string) : M string :=
  match xs with
  | x :: _ => ret x
  | [] => raise IndexError
  end.

(** [not s] for an optional string: [None] and [""] are falsy. *)
Definition falsy (s : option string) : bool :=
  match s with
  | None => true
  | Some EmptyString => true
  | Some _ => false
  end.

(** The message of the [ValueError] of [_check_stop_token]. *)
Definition stop_token_message : string :=
  "Must speicfy stop_token = " ++ INIT_PARAGRAPH_TOKEN
  ++ " to run with SciPhi".

(** [_check_stop_token]: [stop_token != INIT_PARAGRAPH_TOKEN] holds for
    [None] and for every other string. *)
Definition _check_stop_token (stop_token : option string) : M unit :=
  match stop_token with
  | Some t =>
      if String.eqb t INIT_PARAGRAPH_TOKEN then ret tt
      else raise (ValueError stop_token_message)
  | None => raise (ValueError stop_token_message)
  end.

(** The local variables of the flattening loop of
    [get_chat_completion]; [last_user_message] is [None] while the name
    is unbound. *)
Record ChatLocals : Type :=
  { prompt : string;
    added_system_prompt : bool;
    last_user_message : option string }.

(** One pass of [for message in conversation]. *)
Definition chat_message (l : ChatLocals) (message : Message)
  : ChatLocals :=
  if String.eqb (role message) "system" then
    {| prompt := prompt l ++ "### System:" ++ nl
                 ++ ALPACA_CHAT_SYSTEM_PROMPT
                 ++ ". Further, the assistant is given the following additional instructions - "
                 ++ content message ++ nl ++ nl;
       added_system_prompt := true;
       last_user_message := last_user_message l |}
  else if String.eqb (role message) "user" then
    {| prompt := prompt l ++ "### Instruction:" ++ nl
                 ++ content message ++ nl ++ nl;
       added_system_prompt := added_system_prompt l;
       last_user_message := Some (content message) |}
  else if String.eqb (role message) "assistant" then
    {| prompt := prompt l ++ "### Response:" ++ nl
                 ++ content message ++ nl ++ nl;
       added_system_prompt := added_system_prompt l;
       last_user_message := last_user_message l |}
  else l.

Definition flatten (conversation : list Message) : ChatLocals :=
  fold_left chat_message conversation
    {| prompt := ""; added_system_prompt := false;
       last_user_message := None |}.

(** Reading the local [last_user_message]. *)
Definition read_last_user_message (l : ChatLocals) : M string :=
  match last_user_message l with
  | Some m => ret m
  | None => raise (UnboundLocalError "last_user_message")
  end.

(** [get_chat_completion]. *)
Definition get_chat_completion (conversation : list Message)
    (generation_config : loc) : M string :=
  c <- deref generation_config ;;
  _check_stop_token (stop_token c) ;;;
  let l := flatten conversation in
  let prompt :=
    if negb (added_system_prompt l)
    then "### System:" ++ nl ++ ALPACA_CHAT_SYSTEM_PROMPT ++ "."
         ++ nl ++ nl ++ prompt l
    else prompt l in
  c <- deref generation_config ;;
  if falsy (model_name c) then raise (ValueError "No model name provided")
  else
    prompt <-
      (if contains "RAG" (default "" (model_name c)) then
         match rag_interface self with
         | None =>
             raise (ValueError
               "RAG generation requested but no RAG interface provided")
         | Some _ =>
             generation_config_copy <- copy generation_config ;;
             set_stop_token generation_config_copy None ;;;
             context_query <-
               (if Nat.ltb 1 (List.length conversation) then
                  r <- call_instruct
                         ("### Instruction:" ++ nl
                          ++ "Based on the following conversation, what is the ideal query to retrieve related context? ### Conversation:"
                          ++ nl ++ prompt ++ nl ++ nl
                          ++ "Now, return the query." ++ nl ++ nl
                          ++ "### Response:" ++ nl)
                         generation_config_copy ;;
                  ret (remove_cruft r)
                else read_last_user_message l) ;;
             emit (Printed ("context_query =  " ++ context_query ++ nl)) ;;;
             contexts <- call_contexts [context_query] ;;
             context <- first_item contexts ;;
             ret (prompt ++ "### Response:" ++ nl ++ RETRIEVAL_TOKEN ++ " "
                  ++ INIT_PARAGRAPH_TOKEN ++ context
                  ++ END_PARAGRAPH_TOKEN)
         end
       else ret (prompt ++ "### Response:" ++ nl)) ;;
    latest_completion <- call_instruct prompt generation_config ;;
    ret (remove_cruft latest_completion).

(** The query of a retrieval round of [get_completion]. *)
Definition context_query (prompt completion : string) : string :=
  if String.eqb completion RETRIEVAL_TOKEN then prompt
  else remove_cruft completion.

(** One pass of the [while True] of [get_completion]: [inl] is the
    [break] with the completion reached, [inr] the completion the next
    pass starts from. *)
Definition rag_round (prompt : string) (generation_config : loc)
    (completion : string) : M (string + string) :=
  let prompt_with_context := format_prompt prompt ++ completion in
  r <- call_instruct prompt_with_context generation_config ;;
  let latest_completion := strip r in
  let completion := completion ++ latest_completion in
  if negb (endswith RETRIEVAL_TOKEN completion) then ret (inl completion)
  else
    contexts <- call_contexts [context_query prompt completion] ;;
    context <- first_item contexts ;;
    ret (inr (completion ++ INIT_PARAGRAPH_TOKEN ++ context
              ++ END_PARAGRAPH_TOKEN)).

(** The loop, with [fuel] bounding the number of passes. *)
Fixpoint rag_loop (fuel : nat) (prompt : string) (generation_config : loc)
    (completion : string) : M string :=
  match fuel with
  | O => out_of_fuel
  | S fuel' =>
      r <- rag_round prompt generation_config completion ;;
      match r with
      | inl completion' => ret completion'
      | inr completion' =>
          rag_loop fuel' prompt generation_config completion'
      end
  end.

(** [get_completion].  The [logger.debug] call is not modelled. *)
Definition get_completion (fuel : nat) (prompt : string)
    (generation_config : loc) : M string :=
  c <- deref generation_config ;;
  _check_stop_token (stop_token c) ;;;
  c <- deref generation_config ;;
  if falsy (model_name c) then raise (ValueError "No model name provided")
  else if negb (contains "RAG" (default "" (model_name c))) then
    r <- call_instruct prompt generation_config ;;
    ret (strip r)
  else
    match rag_interface self with
    | None =>
        raise (ValueError
                 "RAG model requested, but no RAG interface provided")
    | Some _ =>
        completion <- rag_loop fuel prompt generation_config "" ;;
        ret (strip (remove_cruft completion))
    end.

(** [get_batch_completion].  The [logger.debug] call is not modelled. *)
Definition get_batch_completion (prompts : list string)
    (generation_config : loc) : M (list string) :=
  call_batch_instruct prompts generation_config.

(** The calls to [get_instruct_completion] and to [get_contexts] in a
    trace. *)
Definition is_instruct_call (e : Event) : bool :=
  match e with InstructCall _ _ => true | _ => false end.

Definition is_contexts_call (e : Event) : bool :=
  match e with ContextsCall _ => true | _ => false end.

Definition instruct_calls (t : list Event) : nat :=
  List.length (List.filter is_instruct_call t).

Definition contexts_calls (t : list Event) : nat :=
  List.length (List.filter is_contexts_call t).

(** The backend answers [answer] to its call number [n] (from 0) of the
    run that starts in [st], whatever the arguments. *)
Definition answers_nth (st : State) (n : nat) (answer : string) : Prop :=
  forall t p c,
    instruct_calls t = instruct_calls (trace st) + n ->
    get_instruct_completion (_model self) t p c = answer.

(** A computation leaves the store of objects as it is. *)
Definition keeps_store {A} (m : M A) : Prop :=
  forall st, heap (snd (m st)) = heap st.

(** A computation adds at most [i] model calls and [f] fetches to the
    trace. *)
Definition calls_at_most {A} (i f : nat) (m : M A) : Prop :=
  forall st,
    exists later,
      trace (snd (m st)) = (trace st ++ later)%list
      /\ instruct_calls later <= i
      /\ contexts_calls later <= f.

(** A message whose role one of the three branches of the flattening loop
    tests for. *)
Definition known_role (message : Message) : bool :=
  String.eqb (role message) "system"
  || String.eqb (role message) "user"
  || String.eqb (role message) "assistant".

(** The prompt [get_chat_completion] has built when it reaches the model
    name check: the flattened conversation, after the default system block
    when no system message was met. *)
Definition chat_prompt (conversation : list Message) : string :=
  let l := flatten conversation in
  if negb (added_system_prompt l)
  then "### System:" ++ nl ++ ALPACA_CHAT_SYSTEM_PROMPT ++ "."
       ++ nl ++ nl ++ prompt l
  else prompt l.


(** What the loop of [get_completion] sends out: model calls with the
    configuration [c] and fetches of a single query. *)
Definition loop_event (c : GenerationConfig) (e : Event) : Prop :=
  match e with
  | InstructCall _ c' => c' = c
  | ContextsCall queries => List.length queries = 1
  | BatchInstructCall _ _ => False
  | Printed _ => False
  end.

End Interface.

Arguments GenerationConfig : clear implicits.
Arguments Event : clear implicits.
Arguments SciPhiLLM : clear implicits.
Arguments RAGInterface : clear implicits.
Arguments Self : clear implicits.
Arguments State : clear implicits.

End SciPhiLLMInterface.

(* ===================================================================== *)
(** * Backends and stores for concrete runs *)
(* ===================================================================== *)

Module Scenario.
Import Py SciPhiFormatter SciPhiLLMInterface.

(** A model backend that asks for a retrieval on its first call and
    answers on the later ones; its batch call echoes the prompts. *)
Definition scripted_llm : SciPhiLLM unit :=
  {| get_instruct_completion := fun t _ _ =>
       match instruct_calls t with
       | O => "[Retrieval]"
       | S _ => "final answer"
       end;
     get_batch_instruct_completion := fun _ prompts _ => prompts |}.

(** A retrieval backend that returns [ctx] for every query. *)
Definition constant_rag (ctx : string) : RAGInterface unit :=
  {| get_contexts := fun _ queries => List.map (fun _ => ctx) queries |}.

Definition interface_with (ctx : string) : Self unit :=
  {| _model := scripted_llm; rag_interface := Some (constant_rag ctx) |}.

Definition rag_config : GenerationConfig unit :=
  {| model_name := Some "SciPhi-Self-RAG-Mistral-7B-32k";
     stop_token := Some "<paragraph>";
     sampling := tt |}.

Definition no_stop_config : GenerationConfig unit :=
  {| model_name := Some "SciPhi-Self-RAG-Mistral-7B-32k";
     stop_token := None;
     sampling := tt |}.

(** A store with one configuration object, at reference 0, and no call
    made yet. *)
Definition store_of (c : GenerationConfig unit) : State unit :=
  {| heap := {[ 0 := c ]}; trace := [] |}.

(** A configuration whose model name does not ask for retrieval. *)
Definition plain_config : GenerationConfig unit :=
  {| model_name := Some "SciPhi-Mistral-7B-32k";
     stop_token := Some "<paragraph>";
     sampling := tt |}.

(** A configuration with no model name. *)
Definition nameless_config : GenerationConfig unit :=
  {| model_name := None;
     stop_token := Some "<paragraph>";
     sampling := tt |}.

(** A model backend that asks for a retrieval on every call. *)
Definition looping_llm : SciPhiLLM unit :=
  {| get_instruct_completion := fun _ _ _ => " [Retrieval] ";
     get_batch_instruct_completion := fun _ prompts _ => prompts |}.

Definition looping_interface : Self unit :=
  {| _model := looping_llm; rag_interface := Some (constant_rag "ctx") |}.

(** An interface with no retrieval backend. *)
Definition interface_without_rag : Self unit :=
  {| _model := scripted_llm; rag_interface := None |}.

Definition ask (text : string) : Message :=
  {| role := "user"; content := text |}.

Definition instruct (text : string) : Message :=
  {| role := "system"; content := text |}.


End Scenario.


(* ===================================================================== *)
(** * Facts about the string builtins *)
(* ===================================================================== *)

Module PyFacts.
Import Py.

Lemma append_nil_r (s : string) : s ++ "" = s.
Proof. induction s as [|c s IH]; simpl; [reflexivity | now rewrite IH]. Qed.

Lemma append_assoc (a b c : string) : (a ++ b) ++ c = a ++ b ++ c.
Proof. induction a as [|x a IH]; simpl; [reflexivity | now rewrite IH]. Qed.

Lemma length_append (a b : string) :
  String.length (a ++ b) = String.length a + String.length b.
Proof. induction a as [|x a IH]; simpl; [reflexivity | now rewrite IH]. Qed.

Lemma drop_nil (n : nat) : drop n "" = "".
Proof. now destruct n. Qed.

Lemma drop_add (a b : nat) (s : string) : drop (a + b) s = drop b (drop a s).
Proof.
  revert s; induction a as [|a IH]; intros s; simpl; [reflexivity|].
  destruct s as [|c s]; [now rewrite drop_nil | apply IH].
Qed.

Lemma drop_append (p s : string) : drop (String.length p) (p ++ s) = s.
Proof. induction p as [|c p IH]; simpl; [reflexivity | exact IH]. Qed.

Lemma length_drop (n : nat) (s : string) :
  String.length (drop n s) = String.length s - n.
Proof.
  revert s; induction n as [|n IH]; intros [|c s]; simpl; auto.
Qed.

Lemma startswith_nil (tok : string) : tok <> "" -> startswith tok "" = false.
Proof. now destruct tok. Qed.

Lemma startswith_append (p s : string) : startswith p (p ++ s) = true.
Proof.
  induction p as [|c p IH]; simpl; [reflexivity|].
  now rewrite Ascii.eqb_refl, IH.
Qed.

(** A prefix test only reads as many characters as the prefix has. *)
Lemma startswith_append_long (tok x y : string) :
  String.length tok <= String.length x ->
  startswith tok (x ++ y) = startswith tok x.
Proof.
  revert x; induction tok as [|c tok IH]; intros [|d x]; simpl; intros H;
    try reflexivity; try lia.
  rewrite IH by lia. reflexivity.
Qed.

Lemma startswith_append_short (tok x y : string) :
  String.length x <= String.length tok ->
  startswith tok (x ++ y)
  = startswith x tok && startswith (drop (String.length x) tok) y.
Proof.
  revert tok; induction x as [|d x IH]; intros [|c tok]; simpl; intros H;
    try reflexivity; try lia.
  rewrite IH by lia. rewrite (Ascii.eqb_sym c d). now rewrite andb_assoc.
Qed.

(** ** The scan *)

Lemma sub_scan_skip (m : matcher) (repl : string) (k : nat) (s : string) :
  sub_scan m repl k s = sub_scan m repl 0 (drop k s).
Proof.
  revert k; induction s as [|c s IH]; intros [|k]; try reflexivity.
  simpl. apply IH.
Qed.

(** The two equations of a replacement scan. *)
Lemma sub_scan_match (m : matcher) (repl : string) (s : string) (n : nat) :
  s <> "" -> 1 <= n -> m s = Some n ->
  sub_scan m repl 0 s = repl ++ sub_scan m repl 0 (drop n s).
Proof.
  destruct s as [|c s]; [congruence|]. intros _ Hn Hm.
  simpl. rewrite Hm. rewrite sub_scan_skip.
  destruct n as [|n]; [lia | reflexivity].
Qed.

Lemma sub_scan_keep (m : matcher) (repl : string) (c : ascii) (s : string) :
  m (String c s) = None ->
  sub_scan m repl 0 (String c s) = String c (sub_scan m repl 0 s).
Proof. intros Hm. simpl. now rewrite Hm. Qed.

Lemma sub_scan_id (m : matcher) (repl : string) (s : string) :
  occurs m s = false -> sub_scan m repl 0 s = s.
Proof.
  induction s as [|c s IH]; [reflexivity|].
  cbn [occurs]. intros H. apply orb_false_elim in H as [Hm Ho].
  destruct (m (String c s)) eqn:E; [discriminate|].
  rewrite sub_scan_keep by exact E. now rewrite IH.
Qed.

Lemma sub_scan_length_le (m : matcher) (k : nat) (s : string) :
  String.length (sub_scan m "" k s) <= String.length s.
Proof.
  revert k; induction s as [|c s IH]; intros k; [simpl; lia|].
  destruct k as [|k]; cbn [sub_scan].
  - destruct (m (String c s)) as [n|]; simpl.
    + specialize (IH (Nat.pred n)). lia.
    + specialize (IH 0). lia.
  - specialize (IH k). simpl. lia.
Qed.

Lemma sub_scan_length_lt (m : matcher) (s : string) :
  occurs m s = true ->
  String.length (sub_scan m "" 0 s) < String.length s.
Proof.
  induction s as [|c s IH]; [discriminate|].
  cbn [occurs sub_scan]. destruct (m (String c s)) as [n|]; simpl.
  - intros _. pose proof (sub_scan_length_le m (Nat.pred n) s). lia.
  - intros H. apply IH in H. lia.
Qed.

(** ** [find] and [in] *)

Lemma contains_occurs (tok s : string) :
  tok <> "" -> contains tok s = occurs (match_literal tok) s.
Proof.
  intros Htok. unfold contains.
  induction s as [|c s IH].
  - simpl. now rewrite startswith_nil.
  - cbn [find occurs]. unfold match_literal at 1.
    destruct (startswith tok (String c s)); [reflexivity|].
    simpl. rewrite <- IH. now destruct (find tok s).
Qed.

Lemma find_unfold (tok s : string) :
  find tok s
  = if startswith tok s then Some 0
    else match s with
         | EmptyString => None
         | String _ t => option_map S (find tok t)
         end.
Proof. now destruct s. Qed.

Lemma contains_cons (tok : string) (c : ascii) (s : string) :
  contains tok (String c s) = false ->
  startswith tok (String c s) = false /\ contains tok s = false.
Proof.
  unfold contains. cbn [find].
  destruct (startswith tok (String c s)); [discriminate|].
  destruct (find tok s); [discriminate | auto].
Qed.

Lemma unbordered_spec (tok : string) (k : nat) :
  unbordered tok = true -> 1 <= k < String.length tok ->
  startswith (drop k tok) tok = false.
Proof.
  unfold unbordered. rewrite forallb_forall. intros H Hk.
  apply negb_true_iff, H, in_seq. lia.
Qed.

(** In [x ++ tok ++ rest], where [tok] is not in [x] and cannot overlap
    itself, the first [tok] is the one written after [x]. *)
Lemma find_append_clean (tok x rest : string) :
  tok <> "" -> unbordered tok = true -> contains tok x = false ->
  find tok (x ++ tok ++ rest) = Some (String.length x).
Proof.
  intros Htok Hub. induction x as [|c x IH]; intros Hx.
  - simpl. rewrite find_unfold, startswith_append. reflexivity.
  - apply contains_cons in Hx as [Hhead Htail].
    change (String c x ++ tok ++ rest) with (String c (x ++ tok ++ rest)).
    cbn [find].
    change (String c (x ++ tok ++ rest)) with (String c x ++ tok ++ rest).
    assert (E : startswith tok (String c x ++ tok ++ rest) = false).
    { destruct (le_lt_dec (String.length tok) (String.length (String c x)))
        as [Hlong|Hshort].
      - rewrite startswith_append_long by exact Hlong. exact Hhead.
      - rewrite startswith_append_short by lia.
        rewrite startswith_append_long by (rewrite length_drop; lia).
        rewrite unbordered_spec; [apply andb_false_r | exact Hub |].
        simpl in *. lia. }
    rewrite E, (IH Htail). reflexivity.
Qed.

Lemma endswith_append_long (suf a b : string) :
  String.length suf <= String.length b ->
  endswith suf (a ++ b) = endswith suf b.
Proof.
  intros H. unfold endswith. rewrite length_append.
  replace (String.length a + String.length b - String.length suf)
    with (String.length a + (String.length b - String.length suf)) by lia.
  rewrite drop_add, drop_append.
  rewrite !(proj2 (Nat.leb_le _ _)) by lia. reflexivity.
Qed.

(** ** Characters and fixed prefixes *)

Lemma startswith_mentions (a : ascii) (p x : string) :
  startswith (String a p) x = true -> mentions a x = true.
Proof.
  destruct x as [|d x]; simpl; [discriminate|].
  intros H. apply andb_prop in H as [H _]. now rewrite H.
Qed.

Lemma occurs_mentions (m : matcher) (a : ascii) (s : string) :
  (forall x n, m x = Some n -> mentions a x = true) ->
  mentions a s = false -> occurs m s = false.
Proof.
  intros Hm. induction s as [|d s IH]; [reflexivity|].
  intros Hs. cbn [occurs].
  destruct (m (String d s)) as [n|] eqn:E.
  - apply Hm in E. congruence.
  - simpl in Hs. apply orb_false_elim in Hs as [_ Hs]. now rewrite IH.
Qed.

Lemma never_starts_append (tok x s : string) :
  x <> "" -> never_starts tok x = true -> startswith tok (x ++ s) = false.
Proof.
  intros Hx H. unfold never_starts in H.
  apply andb_prop in H as [H1 H2].
  apply negb_true_iff in H1. apply negb_true_iff in H2.
  destruct (le_lt_dec (String.length tok) (String.length x)) as [Hl|Hl].
  - now rewrite startswith_append_long.
  - rewrite startswith_append_short by lia. now rewrite H2.
Qed.

Lemma find_append_clear (tok a s : string) :
  clear_of tok a = true ->
  find tok (a ++ s) = option_map (Nat.add (String.length a)) (find tok s).
Proof.
  induction a as [|c a IH]; intros H.
  - simpl. now destruct (find tok s).
  - cbn [clear_of] in H. apply andb_prop in H as [H1 H2].
    change (String c a ++ s) with (String c (a ++ s)). cbn [find].
    change (String c (a ++ s)) with (String c a ++ s).
    rewrite never_starts_append by (assumption || discriminate).
    rewrite (IH H2). now destruct (find tok s).
Qed.

Lemma contains_append_clear (tok a s : string) :
  clear_of tok a = true -> contains tok (a ++ s) = contains tok s.
Proof.
  intros H. unfold contains. rewrite (find_append_clear _ _ _ H).
  now destruct (find tok s).
Qed.

Lemma startswith_prefix (a b y : string) :
  startswith (a ++ b) y = true -> startswith a y = true.
Proof.
  revert y; induction a as [|c a IH]; intros y; [reflexivity|].
  destruct y as [|d y]; simpl; [discriminate|].
  intros H. apply andb_prop in H as [H1 H2]. rewrite H1. now apply IH.
Qed.

Lemma startswith_take (tok : string) (n : nat) (s : string) :
  startswith tok (take n s) = true -> startswith tok s = true.
Proof.
  revert n s; induction tok as [|a tok IH]; intros n s; [reflexivity|].
  destruct n as [|n]; destruct s as [|c s]; simpl; try discriminate.
  intros H. apply andb_prop in H as [H1 H2].
  rewrite H1. simpl. now apply (IH n).
Qed.

(** Before its first occurrence, [tok] does not occur. *)
Lemma find_take_clean (tok s : string) (j : nat) :
  tok <> "" -> find tok s = Some j -> contains tok (take j s) = false.
Proof.
  intros Htok. revert j; induction s as [|c s IH]; intros j; cbn [find].
  - rewrite startswith_nil by assumption. discriminate.
  - destruct (startswith tok (String c s)) eqn:E.
    + intros [= <-]. simpl. unfold contains. simpl.
      now rewrite startswith_nil.
    + destruct (find tok s) as [i|] eqn:Ei; [|discriminate].
      intros [= <-]. cbn [take]. unfold contains. cbn [find].
      destruct (startswith tok (String c (take i s))) eqn:E2.
      * change (String c (take i s)) with (take (S i) (String c s)) in E2.
        apply startswith_take in E2. congruence.
      * specialize (IH i eq_refl). unfold contains in IH.
        now destruct (find tok (take i s)).
Qed.

(** ** [strip] *)

Lemma lstrip_length (s : string) :
  String.length (lstrip s) <= String.length s.
Proof.
  induction s as [|c s IH]; simpl; [lia|].
  destruct (isspace c); simpl; lia.
Qed.

Lemma lstrip_lstrip (s : string) : lstrip (lstrip s) = lstrip s.
Proof.
  induction s as [|c s IH]; [reflexivity|]. simpl.
  destruct (isspace c) eqn:E; [exact IH|]. simpl. now rewrite E.
Qed.

Lemma rstrip_rstrip (s : string) : rstrip (rstrip s) = rstrip s.
Proof.
  induction s as [|c s IH]; [reflexivity|]. cbn [rstrip].
  destruct (rstrip s) as [|d r] eqn:E.
  - destruct (isspace c) eqn:Ec; [reflexivity|]. simpl. now rewrite Ec.
  - cbn [rstrip]. cbn [rstrip] in IH. now rewrite IH.
Qed.

Lemma lstrip_rstrip (x : string) :
  lstrip x = x -> lstrip (rstrip x) = rstrip x.
Proof.
  destruct x as [|c t]; [reflexivity|]. cbn [lstrip].
  destruct (isspace c) eqn:Ec.
  - intros H. pose proof (lstrip_length t) as Hl. rewrite H in Hl.
    simpl in Hl. lia.
  - intros _. cbn [rstrip].
    destruct (rstrip t); rewrite ?Ec; simpl; now rewrite Ec.
Qed.

Lemma strip_strip (s : string) : strip (strip s) = strip s.
Proof.
  unfold strip.
  rewrite (lstrip_rstrip (lstrip s)) by apply lstrip_lstrip.
  apply rstrip_rstrip.
Qed.

Lemma endswith_length (suf s : string) :
  endswith suf s = true -> String.length suf <= String.length s.
Proof.
  unfold endswith. intros H. apply andb_prop in H as [H _].
  now apply Nat.leb_le.
Qed.

End PyFacts.

(* ===================================================================== *)
(** * The formatter *)
(* ===================================================================== *)

Module FormatterFacts.
Import Py PyFacts SciPhiFormatter.

(** ** [remove_cruft] *)

Lemma control_tokens_nonempty : Forall (fun t => t <> "") control_tokens.
Proof. repeat constructor; discriminate. Qed.

Lemma remove_cruft_unfold (s : string) :
  remove_cruft s
  = fold_left (fun acc t => replace t "" acc) control_tokens
      (re_sub_lazy_span INIT_PARAGRAPH_TOKEN END_PARAGRAPH_TOKEN "" s).
Proof. reflexivity. Qed.

Lemma replace_id (tok s : string) :
  tok <> "" -> contains tok s = false -> replace tok "" s = s.
Proof.
  intros Htok H. apply sub_scan_id. now rewrite <- contains_occurs.
Qed.

Lemma replace_length_le (tok s : string) :
  String.length (replace tok "" s) <= String.length s.
Proof. apply sub_scan_length_le. Qed.

Lemma replace_length_lt (tok s : string) :
  tok <> "" -> contains tok s = true ->
  String.length (replace tok "" s) < String.length s.
Proof.
  intros Htok H. apply sub_scan_length_lt. now rewrite <- contains_occurs.
Qed.

Lemma replace_all_length_le (toks : list string) (s : string) :
  String.length (fold_left (fun acc t => replace t "" acc) toks s)
  <= String.length s.
Proof.
  revert s; induction toks as [|t toks IH]; intros s; simpl; [lia|].
  specialize (IH (replace t "" s)).
  pose proof (replace_length_le t s). lia.
Qed.

Lemma replace_all_id (toks : list string) (s : string) :
  Forall (fun t => t <> "") toks ->
  forallb (fun t => negb (contains t s)) toks = true ->
  fold_left (fun acc t => replace t "" acc) toks s = s.
Proof.
  induction 1 as [|t toks Ht _ IH]; simpl; [reflexivity|].
  intros H. apply andb_prop in H as [H1 H2].
  apply negb_true_iff in H1.
  rewrite replace_id by assumption. now apply IH.
Qed.

Lemma replace_all_length_lt (toks : list string) (s : string) :
  Forall (fun t => t <> "") toks ->
  forallb (fun t => negb (contains t s)) toks = false ->
  String.length (fold_left (fun acc t => replace t "" acc) toks s)
  < String.length s.
Proof.
  induction 1 as [|t toks Ht _ IH]; simpl; [discriminate|].
  destruct (contains t s) eqn:E; simpl.
  - intros _. pose proof (replace_length_lt t s Ht E).
    pose proof (replace_all_length_le toks (replace t "" s)). lia.
  - intros H. rewrite replace_id by assumption. now apply IH.
Qed.

(** The texts [remove_cruft] leaves as they are: those with no paragraph
    span and no control token. *)
Lemma remove_cruft_fixed_iff (y : string) :
  remove_cruft y = y <-> cruft_free y = true.
Proof.
  rewrite remove_cruft_unfold. unfold cruft_free, has_paragraph_span,
    re_sub_lazy_span.
  set (m := match_lazy_span INIT_PARAGRAPH_TOKEN END_PARAGRAPH_TOKEN).
  split.
  - intros Heq.
    destruct (occurs m y) eqn:Ho; cbn [negb andb].
    + exfalso. pose proof (sub_scan_length_lt m y Ho) as Hlt.
      pose proof (replace_all_length_le control_tokens (sub_scan m "" 0 y)).
      rewrite Heq in *. lia.
    + rewrite (sub_scan_id m "" y Ho) in Heq.
      destruct (forallb (fun t => negb (contains t y)) control_tokens)
        eqn:Hf; [reflexivity|].
      exfalso.
      pose proof (replace_all_length_lt control_tokens y
                    control_tokens_nonempty Hf) as Hlt.
      rewrite Heq in Hlt. lia.
  - intros H. apply andb_prop in H as [H1 H2].
    apply negb_true_iff in H1.
    rewrite (sub_scan_id m "" y H1).
    apply replace_all_id; [apply control_tokens_nonempty | exact H2].
Qed.

(** A character other than ["<"] starts no paragraph span. *)
Lemma re_sub_keep (c : ascii) (s : string) :
  Ascii.eqb "<" c = false ->
  re_sub_lazy_span INIT_PARAGRAPH_TOKEN END_PARAGRAPH_TOKEN ""
    (String c s)
  = String c
      (re_sub_lazy_span INIT_PARAGRAPH_TOKEN END_PARAGRAPH_TOKEN "" s).
Proof.
  intros Hc. unfold re_sub_lazy_span. apply sub_scan_keep.
  unfold match_lazy_span, INIT_PARAGRAPH_TOKEN. cbn [startswith].
  now rewrite Hc.
Qed.

(** A span whose inside holds no paragraph-end marker is removed whole,
    and the scan goes on after it. *)
Lemma re_sub_span (ctx rest : string) :
  contains END_PARAGRAPH_TOKEN ctx = false ->
  re_sub_lazy_span INIT_PARAGRAPH_TOKEN END_PARAGRAPH_TOKEN ""
    (INIT_PARAGRAPH_TOKEN ++ ctx ++ END_PARAGRAPH_TOKEN ++ rest)
  = re_sub_lazy_span INIT_PARAGRAPH_TOKEN END_PARAGRAPH_TOKEN "" rest.
Proof.
  intros Hctx. unfold re_sub_lazy_span.
  rewrite (sub_scan_match _ _ _
             (String.length INIT_PARAGRAPH_TOKEN + String.length ctx
              + String.length END_PARAGRAPH_TOKEN)).
  - rewrite !drop_add, !drop_append. reflexivity.
  - discriminate.
  - simpl. lia.
  - unfold match_lazy_span.
    rewrite startswith_append, drop_append.
    rewrite find_append_clean;
      [reflexivity | discriminate | reflexivity | exact Hctx].
Qed.

(** What a retrieval round splices in after the retrieval token leaves
    no mark on the cleaned text, as long as the context holds no
    paragraph-end marker. *)
Lemma remove_cruft_spliced (ctx rest : string) :
  contains END_PARAGRAPH_TOKEN ctx = false ->
  remove_cruft (RETRIEVAL_TOKEN ++ INIT_PARAGRAPH_TOKEN ++ ctx
                ++ END_PARAGRAPH_TOKEN ++ rest)
  = remove_cruft (RETRIEVAL_TOKEN ++ rest).
Proof.
  intros Hctx. rewrite !remove_cruft_unfold. f_equal.
  unfold RETRIEVAL_TOKEN.
  change ("[Retrieval]" ++ ?s)
    with (String "[" (String "R" (String "e" (String "t" (String "r"
           (String "i" (String "e" (String "v" (String "a" (String "l"
           (String "]" s))))))))))).
  rewrite !re_sub_keep by reflexivity.
  now rewrite re_sub_span.
Qed.

(** C1, as stated, fails: removing the inner token of
    ["[Retri[Retrieval]eval]"] splices a new ["[Retrieval]"] together, which a
    second application removes. *)
Lemma remove_cruft_not_idempotent :
  remove_cruft "[Retri[Retrieval]eval]" = "[Retrieval]"
  /\ remove_cruft (remove_cruft "[Retri[Retrieval]eval]") = "".
Proof. split; reflexivity. Qed.

(** C1, amended: a second application of [remove_cruft] changes nothing
    exactly when the result of the first holds no paragraph span and none
    of the ten control tokens. *)
Theorem remove_cruft_twice_iff (x : string) :
  remove_cruft (remove_cruft x) = remove_cruft x
  <-> cruft_free (remove_cruft x) = true.
Proof. apply remove_cruft_fixed_iff. Qed.

Lemma remove_cruft_twice_witness :
  remove_cruft (remove_cruft "[Retrieval]<paragraph>ctx</paragraph>rest[Irrelevant]")
  = remove_cruft "[Retrieval]<paragraph>ctx</paragraph>rest[Irrelevant]".
Proof.
  apply (proj2 (remove_cruft_twice_iff
           "[Retrieval]<paragraph>ctx</paragraph>rest[Irrelevant]")).
  vm_compute. reflexivity.
Defined.

(** ** [extract_post_prompt] *)

Lemma split_scan_skip (sep : string) (k : nat) (cur s : string) :
  split_scan sep k cur s = split_scan sep 0 cur (drop k s).
Proof.
  revert k; induction s as [|c s IH]; intros [|k]; try reflexivity.
  simpl. apply IH.
Qed.

(** [split] cuts at the first occurrence of the separator and goes on
    after it. *)
Lemma split_scan_find (sep cur s : string) :
  sep <> "" ->
  split_scan sep 0 cur s
  = match find sep s with
    | None => [cur ++ s]
    | Some i =>
        (cur ++ take i s)
          :: split_scan sep 0 "" (drop (i + String.length sep) s)
    end.
Proof.
  intros Hsep. revert cur; induction s as [|c s IH]; intros cur.
  - simpl. rewrite startswith_nil by assumption.
    now rewrite append_nil_r.
  - cbn [split_scan find].
    destruct (startswith sep (String c s)) eqn:E.
    + rewrite split_scan_skip. simpl take. rewrite append_nil_r.
      destruct sep as [|a sep]; [congruence|]. reflexivity.
    + rewrite IH. destruct (find sep s) as [i|]; simpl.
      * rewrite append_assoc. reflexivity.
      * rewrite append_assoc. reflexivity.
Qed.

(** What [extract_post_prompt] returns: the text between the first marker
    and the next one, or the end of the completion when there is no next
    one. *)
Lemma extract_post_prompt_spec (completion : string) :
  extract_post_prompt completion
  = match find INSTRUCTION_SUFFIX completion with
    | None =>
        inl (MissingSuffix
               ("Full Completion does not contain " ++ INSTRUCTION_SUFFIX))
    | Some i =>
        let rest :=
          drop (i + String.length INSTRUCTION_SUFFIX) completion in
        inr match find INSTRUCTION_SUFFIX rest with
            | None => rest
            | Some j => take j rest
            end
    end.
Proof.
  assert (Hne : INSTRUCTION_SUFFIX <> "") by discriminate.
  unfold extract_post_prompt, contains, split.
  rewrite (split_scan_find _ _ _ Hne).
  destruct (find INSTRUCTION_SUFFIX completion) as [i|]; [|reflexivity].
  cbn [negb nth_error]. rewrite (split_scan_find _ _ _ Hne).
  cbv zeta.
  destruct (find INSTRUCTION_SUFFIX
              (drop (i + String.length INSTRUCTION_SUFFIX) completion));
    reflexivity.
Qed.

(** Without the marker the call raises. *)
Lemma extract_post_prompt_absent (completion : string) :
  contains INSTRUCTION_SUFFIX completion = false ->
  extract_post_prompt completion
  = inl (MissingSuffix
           ("Full Completion does not contain " ++ INSTRUCTION_SUFFIX)).
Proof. unfold extract_post_prompt. now intros ->. Qed.

(** With the marker once, the call returns all that follows it. *)
Lemma extract_post_prompt_single (completion : string) (i : nat) :
  find INSTRUCTION_SUFFIX completion = Some i ->
  contains INSTRUCTION_SUFFIX
    (drop (i + String.length INSTRUCTION_SUFFIX) completion) = false ->
  extract_post_prompt completion
  = inr (drop (i + String.length INSTRUCTION_SUFFIX) completion).
Proof.
  intros Hi Hrest. rewrite extract_post_prompt_spec, Hi. cbv zeta.
  unfold contains in Hrest.
  destruct (find INSTRUCTION_SUFFIX
              (drop (i + String.length INSTRUCTION_SUFFIX) completion));
    [discriminate | reflexivity].
Qed.

(** C2: on a completion with the marker twice, [extract_post_prompt]
    returns the text between the two markers, ["A"], where the
    specification has all that follows the first marker,
    ["A### Response:\nB"]. *)
Theorem extract_post_prompt_two_markers :
  extract_post_prompt
    ("### Response:" ++ nl ++ "A" ++ "### Response:" ++ nl ++ "B")
  = inr "A"
  /\ drop (String.length INSTRUCTION_SUFFIX)
       ("### Response:" ++ nl ++ "A" ++ "### Response:" ++ nl ++ "B")
     = "A" ++ "### Response:" ++ nl ++ "B".
Proof. split; reflexivity. Qed.

(** ** [format_prompt] *)

Lemma endswith_append (suf s : string) : endswith suf (s ++ suf) = true.
Proof.
  unfold endswith. rewrite length_append.
  replace (String.length s + String.length suf - String.length suf)
    with (String.length s) by lia.
  rewrite drop_append, String.eqb_refl.
  rewrite (proj2 (Nat.leb_le _ _)) by lia. reflexivity.
Qed.

(** C3, as stated, fails: the text ["### Instruction:\nQ"] does not occur in
    [format_prompt "Q"], where a second line feed stands between the
    instruction header and the input. *)
Lemma format_prompt_Q_no_single_line_feed :
  contains ("### Instruction:" ++ nl ++ "Q") (format_prompt "Q") = false.
Proof. vm_compute. reflexivity. Qed.

(** C3, amended: for every input (so for ["Q"]), [format_prompt] returns
    a string that starts with the system prompt, goes on with
    ["### Instruction:\n\n"] and the input, and ends with
    ["### Response:\n"]; it is a total function of the input alone. *)
Theorem format_prompt_shape (input : string) :
  format_prompt input
  = SYSTEM_PROMPT ++ "### Instruction:" ++ nl ++ nl ++ input ++ nl ++ nl
    ++ "### Response:" ++ nl
  /\ startswith SYSTEM_PROMPT (format_prompt input) = true
  /\ startswith ("### Instruction:" ++ nl ++ nl ++ input)
       (drop (String.length SYSTEM_PROMPT) (format_prompt input)) = true
  /\ endswith INSTRUCTION_SUFFIX (format_prompt input) = true.
Proof.
  split; [reflexivity|].
  unfold format_prompt. split; [|split].
  - apply startswith_append.
  - rewrite drop_append.
    replace (INSTRUCTION_PREFIX ++ nl ++ input ++ nl ++ nl
             ++ INSTRUCTION_SUFFIX)
      with (("### Instruction:" ++ nl ++ nl ++ input)
            ++ nl ++ nl ++ INSTRUCTION_SUFFIX).
    + apply startswith_append.
    + unfold INSTRUCTION_PREFIX. now rewrite !append_assoc.
  - rewrite <- !append_assoc. apply endswith_append.
Qed.

(** ** More on [remove_cruft] *)

Lemma contains_mentions (a : ascii) (p s : string) :
  mentions a s = false -> contains (String a p) s = false.
Proof.
  intros H. rewrite contains_occurs by discriminate.
  apply (occurs_mentions _ a); [|exact H].
  intros x n. unfold match_literal.
  destruct (startswith (String a p) x) eqn:E; [|discriminate].
  intros _. now apply startswith_mentions in E.
Qed.

(** X1: a text with no ["<"] and no ["["] in it comes out of
    [remove_cruft] as it went in. *)
Theorem remove_cruft_plain (s : string) :
  mentions "<" s = false -> mentions "[" s = false -> remove_cruft s = s.
Proof.
  intros Hlt Hbr. apply remove_cruft_fixed_iff.
  unfold cruft_free, has_paragraph_span.
  rewrite (occurs_mentions _ "<" s); [|clear|exact Hlt].
  - unfold control_tokens, RETRIEVAL_TOKEN, NO_RETRIEVAL_TOKEN,
      IRRELEVANT_TOKEN, EVIDENCE_TOKEN, UTILITY_TOKEN, RELEVANT_TOKEN,
      PARTIALLY_SUPPORTED_TOKEN, FULLY_SUPPORTED, END_TOKEN,
      NO_SUPPORT_TOKEN.
    cbn [forallb negb andb].
    now rewrite !contains_mentions by assumption.
  - intros x n. unfold match_lazy_span, INIT_PARAGRAPH_TOKEN.
    destruct (startswith "<paragraph>" x) eqn:E; [|discriminate].
    intros _. now apply startswith_mentions in E.
Qed.

Lemma remove_cruft_plain_witness :
  remove_cruft "2 > 1, so a(b) holds." = "2 > 1, so a(b) holds.".
Proof. apply (remove_cruft_plain "2 > 1, so a(b) holds."); reflexivity. Defined.

(** X2: [remove_cruft] returns its argument when that holds no paragraph
    span and no control token, and a strictly shorter text otherwise: it
    never adds a character. *)
Theorem remove_cruft_same_or_shorter (s : string) :
  if cruft_free s then remove_cruft s = s
  else String.length (remove_cruft s) < String.length s.
Proof.
  destruct (cruft_free s) eqn:E; [now apply remove_cruft_fixed_iff|].
  rewrite remove_cruft_unfold. unfold cruft_free, has_paragraph_span in E.
  unfold re_sub_lazy_span.
  set (m := match_lazy_span INIT_PARAGRAPH_TOKEN END_PARAGRAPH_TOKEN) in *.
  destruct (occurs m s) eqn:Ho.
  - pose proof (sub_scan_length_lt m s Ho).
    pose proof (replace_all_length_le control_tokens (sub_scan m "" 0 s)).
    lia.
  - rewrite (sub_scan_id m "" s Ho). cbn [negb andb] in E.
    now apply replace_all_length_lt; [apply control_tokens_nonempty|].
Qed.

(** ** More on [extract_post_prompt] *)

(** X3: [extract_post_prompt] raises the [ValueError] exactly when the
    marker is absent, and otherwise returns a text in which the marker does
    not occur; the subscript [[1]] never fails. *)
Theorem extract_post_prompt_outcome (completion : string) :
  if contains INSTRUCTION_SUFFIX completion
  then exists piece,
         extract_post_prompt completion = inr piece
         /\ contains INSTRUCTION_SUFFIX piece = false
  else extract_post_prompt completion
       = inl (MissingSuffix
                ("Full Completion does not contain " ++ INSTRUCTION_SUFFIX)).
Proof.
  assert (Hne : INSTRUCTION_SUFFIX <> "") by discriminate.
  rewrite extract_post_prompt_spec. unfold contains.
  destruct (find INSTRUCTION_SUFFIX completion) as [i|]; [|reflexivity].
  cbv zeta.
  set (rest := drop (i + String.length INSTRUCTION_SUFFIX) completion).
  destruct (find INSTRUCTION_SUFFIX rest) as [j|] eqn:E.
  - exists (take j rest). split; [reflexivity|].
    apply (find_take_clean _ _ _ Hne E).
  - exists rest. split; [reflexivity|]. now rewrite E.
Qed.

Lemma response_header_tail (k : nat) :
  1 <= k <= 12 ->
  startswith (drop k INSTRUCTION_SUFFIX) (nl ++ nl) = false.
Proof.
  intros [H1 H2].
  do 13 (destruct k as [|k]; [first [lia | reflexivity]|]). lia.
Qed.

(** An input without ["### Response:"] cannot complete the marker with the
    line feeds that [format_prompt] writes after it. *)
Lemma marker_not_in_padded (input : string) :
  contains "### Response:" input = false ->
  contains INSTRUCTION_SUFFIX (input ++ nl ++ nl) = false.
Proof.
  induction input as [|c x IH]; intros H; [reflexivity|].
  apply contains_cons in H as [Hhead Htail].
  change (String c x ++ nl ++ nl) with (String c (x ++ nl ++ nl)).
  unfold contains. cbn [find].
  change (String c (x ++ nl ++ nl)) with (String c x ++ nl ++ nl).
  assert (E : startswith INSTRUCTION_SUFFIX (String c x ++ nl ++ nl) = false).
  { destruct (le_lt_dec 13 (String.length (String c x))) as [Hl|Hl].
    - destruct (startswith INSTRUCTION_SUFFIX (String c x ++ nl ++ nl))
        eqn:E; [|reflexivity].
      apply (startswith_prefix "### Response:" nl) in E.
      rewrite startswith_append_long in E by exact Hl. congruence.
    - rewrite startswith_append_short by (simpl in *; lia).
      rewrite response_header_tail by (simpl in *; lia).
      apply andb_false_r. }
  rewrite E. unfold contains in IH. specialize (IH Htail).
  now destruct (find INSTRUCTION_SUFFIX (x ++ nl ++ nl)).
Qed.

(** X4: [extract_post_prompt] gives back what was appended to
    [format_prompt input], when ["### Response:"] does not occur in the
    input and the marker does not occur in the appended text. *)
Theorem extract_post_prompt_format_prompt (input completion : string) :
  contains "### Response:" input = false ->
  contains INSTRUCTION_SUFFIX completion = false ->
  extract_post_prompt (format_prompt input ++ completion) = inr completion.
Proof.
  intros Hin Hout.
  assert (Hne : INSTRUCTION_SUFFIX <> "") by discriminate.
  set (head := SYSTEM_PROMPT ++ INSTRUCTION_PREFIX ++ nl).
  set (x := head ++ input ++ nl ++ nl).
  assert (Hx : format_prompt input ++ completion
               = x ++ INSTRUCTION_SUFFIX ++ completion).
  { unfold format_prompt, x, head. now rewrite !append_assoc. }
  assert (Hclean : contains INSTRUCTION_SUFFIX x = false).
  { unfold x. rewrite contains_append_clear by (vm_compute; reflexivity).
    now apply marker_not_in_padded. }
  rewrite Hx.
  rewrite (extract_post_prompt_single _ (String.length x)).
  - now rewrite drop_add, !drop_append.
  - apply find_append_clean; [exact Hne | reflexivity | exact Hclean].
  - now rewrite drop_add, !drop_append.
Qed.

Lemma extract_post_prompt_format_prompt_witness :
  extract_post_prompt (format_prompt "Why is the sky blue?" ++ "Scattering.")
  = inr "Scattering.".
Proof.
  apply (extract_post_prompt_format_prompt
           "Why is the sky blue?" "Scattering."); reflexivity.
Defined.

End FormatterFacts.

(* ===================================================================== *)
(** * The orchestrator *)
(* ===================================================================== *)

Module InterfaceFacts.
Import Py PyFacts SciPhiFormatter FormatterFacts SciPhiLLMInterface.

Section Facts.
Context {Sampling : Type}.
Implicit Types (self : Self Sampling) (st : State Sampling)
  (c : GenerationConfig Sampling) (cfg : loc).

(** ** Running the primitives *)

Lemma check_stop_token_ok st :
  _check_stop_token (Some INIT_PARAGRAPH_TOKEN) st = (Return tt, st).
Proof. reflexivity. Qed.

Lemma check_stop_token_raises (t : option string) st :
  t <> Some INIT_PARAGRAPH_TOKEN ->
  _check_stop_token t st = (Raise (ValueError stop_token_message), st).
Proof.
  intros Ht. unfold _check_stop_token. destruct t as [t|]; [|reflexivity].
  destruct (String.eqb_spec t INIT_PARAGRAPH_TOKEN) as [->|_];
    [congruence | reflexivity].
Qed.

Lemma rag_model_name_truthy (name : string) :
  contains "RAG" name = true -> falsy (Some name) = false.
Proof. destruct name; [discriminate | reflexivity]. Qed.

Lemma fresh_ne (h : gmap loc (GenerationConfig Sampling)) cfg c :
  h !! cfg = Some c -> fresh (dom h) <> cfg.
Proof.
  intros H E. apply (is_fresh (dom h)). rewrite E.
  apply elem_of_dom. eauto.
Qed.

(** ** The stop-token gate *)

Lemma get_completion_bad_stop_token self (fuel : nat) (prompt : string)
    cfg st c :
  heap st !! cfg = Some c ->
  stop_token c <> Some INIT_PARAGRAPH_TOKEN ->
  get_completion self fuel prompt cfg st
  = (Raise (ValueError stop_token_message), st).
Proof.
  intros Hc Hstop. unfold get_completion, bind, deref.
  now rewrite Hc, (check_stop_token_raises _ _ Hstop).
Qed.

Lemma get_chat_completion_bad_stop_token self
    (conversation : list Message) cfg st c :
  heap st !! cfg = Some c ->
  stop_token c <> Some INIT_PARAGRAPH_TOKEN ->
  get_chat_completion self conversation cfg st
  = (Raise (ValueError stop_token_message), st).
Proof.
  intros Hc Hstop. unfold get_chat_completion, bind, deref.
  now rewrite Hc, (check_stop_token_raises _ _ Hstop).
Qed.

(** C6: with a stop token other than ["<paragraph>"] (a missing one
    included), [get_completion] and [get_chat_completion] raise the
    configuration error in the state they were called in: no call has
    reached the model backend or the retrieval backend. *)
Theorem stop_token_gate self (fuel : nat) (prompt : string)
    (conversation : list Message) cfg st c :
  heap st !! cfg = Some c ->
  stop_token c <> Some INIT_PARAGRAPH_TOKEN ->
  get_completion self fuel prompt cfg st
  = (Raise (ValueError stop_token_message), st)
  /\ get_chat_completion self conversation cfg st
     = (Raise (ValueError stop_token_message), st).
Proof.
  intros Hc Hstop. split.
  - now apply get_completion_bad_stop_token with (c := c).
  - now apply get_chat_completion_bad_stop_token with (c := c).
Qed.

(** ** Batch completion *)

(** C7: [get_batch_completion] returns the list the backend's batch call
    returns, whatever the stop token and the model name are; the one call
    it makes is that batch call, and when the backend gives one
    completion per prompt the result is as long as the prompts. *)
Theorem get_batch_completion_pass_through self (prompts : list string)
    cfg st c :
  heap st !! cfg = Some c ->
  let out :=
    get_batch_instruct_completion (_model self) (trace st) prompts c in
  get_batch_completion self prompts cfg st
  = (Return out,
     {| heap := heap st;
        trace := trace st ++ [BatchInstructCall prompts c] |})
  /\ (List.length out = List.length prompts ->
      exists r, fst (get_batch_completion self prompts cfg st) = Return r
                /\ List.length r = List.length prompts
                /\ forall i, nth_error r i = nth_error out i).
Proof.
  intros Hc out.
  assert (E : get_batch_completion self prompts cfg st
              = (Return out,
                 {| heap := heap st;
                    trace := trace st ++ [BatchInstructCall prompts c] |})).
  { unfold get_batch_completion, call_batch_instruct, bind, deref.
    now rewrite Hc. }
  split; [exact E|]. intros Hlen. exists out. rewrite E. auto.
Qed.

(** ** Chat completion with a single message *)

Lemma flatten_single (m : Message) :
  flatten [m]
  = chat_message {| prompt := ""; added_system_prompt := false;
                    last_user_message := None |} m.
Proof. reflexivity. Qed.

Lemma flatten_single_user (m : Message) :
  role m = "user" -> last_user_message (flatten [m]) = Some (content m).
Proof.
  intros Hr. rewrite flatten_single. unfold chat_message. now rewrite Hr.
Qed.

Lemma flatten_single_other (m : Message) :
  role m <> "user" -> last_user_message (flatten [m]) = None.
Proof.
  intros Hr. rewrite flatten_single. unfold chat_message.
  destruct (String.eqb_spec (role m) "system"); [reflexivity|].
  destruct (String.eqb_spec (role m) "user"); [contradiction|].
  destruct (String.eqb_spec (role m) "assistant"); reflexivity.
Qed.

(** C10: in RAG mode with a retrieval backend, a conversation of one
    message whose role is not ["user"] makes [get_chat_completion] fail;
    past the stop-token gate the failure is the read of the unbound local
    [last_user_message], before anything is printed or any backend is
    called. *)
Theorem chat_single_non_user_fails self (rag : RAGInterface Sampling)
    (m : Message) cfg st c (name : string) :
  heap st !! cfg = Some c ->
  model_name c = Some name ->
  contains "RAG" name = true ->
  rag_interface self = Some rag ->
  role m <> "user" ->
  exists e,
    fst (get_chat_completion self [m] cfg st) = Raise e
    /\ trace (snd (get_chat_completion self [m] cfg st)) = trace st
    /\ (stop_token c = Some INIT_PARAGRAPH_TOKEN ->
        e = UnboundLocalError "last_user_message").
Proof.
  intros Hc Hname Hrag Hself Hrole.
  destruct (decide (stop_token c = Some INIT_PARAGRAPH_TOKEN)) as [Hs|Hs].
  - exists (UnboundLocalError "last_user_message").
    unfold get_chat_completion, bind, deref.
    rewrite Hc, Hs, check_stop_token_ok, Hc, Hname.
    rewrite (rag_model_name_truthy _ Hrag).
    change (default "" (Some name)) with name. rewrite Hrag, Hself.
    unfold copy, set_stop_token. rewrite Hc. cbn [heap trace].
    rewrite lookup_insert_eq. cbn [heap trace Nat.ltb Nat.leb List.length].
    unfold read_last_user_message.
    rewrite (flatten_single_other _ Hrole). cbn. auto.
  - exists (ValueError stop_token_message).
    rewrite (get_chat_completion_bad_stop_token self [m] cfg st c Hc Hs).
    cbn. split; [reflexivity|]. split; [reflexivity|]. contradiction.
Qed.

(** The run of [get_chat_completion] in RAG mode on one user message, past
    the two configuration checks. *)
Lemma chat_single_user_run self (rag : RAGInterface Sampling)
    (m : Message) cfg st c (name : string) :
  heap st !! cfg = Some c ->
  stop_token c = Some INIT_PARAGRAPH_TOKEN ->
  model_name c = Some name ->
  contains "RAG" name = true ->
  rag_interface self = Some rag ->
  role m = "user" ->
  let l' := fresh (dom (heap st)) in
  let h' :=
    <[l' := {| model_name := model_name c; stop_token := None;
               sampling := sampling c |}]> (<[l' := c]> (heap st)) in
  let printed := Printed ("context_query =  " ++ content m ++ nl) in
  let fetch := [printed; ContextsCall [content m]] in
  let final_prompt context :=
    ("### System:" ++ nl ++ ALPACA_CHAT_SYSTEM_PROMPT ++ "." ++ nl ++ nl
     ++ "" ++ "### Instruction:" ++ nl ++ content m ++ nl ++ nl)
    ++ "### Response:" ++ nl ++ RETRIEVAL_TOKEN ++ " "
    ++ INIT_PARAGRAPH_TOKEN ++ context ++ END_PARAGRAPH_TOKEN in
  get_chat_completion self [m] cfg st
  = match get_contexts rag (trace st ++ [printed]) [content m] with
    | context :: _ =>
        (Return
           (remove_cruft
              (get_instruct_completion (_model self) (trace st ++ fetch)
                 (final_prompt context) c)),
         {| heap := h';
            trace := trace st ++ fetch
                     ++ [InstructCall (final_prompt context) c] |})
    | [] => (Raise IndexError, {| heap := h'; trace := trace st ++ fetch |})
    end.
Proof.
  intros Hc Hs Hname Hrag Hself Hrole.
  destruct m as [r text]. cbn in Hrole. subst r. cbn [content]. cbv zeta.
  unfold get_chat_completion, bind, deref.
  rewrite Hc, Hs, check_stop_token_ok, Hc, Hname.
  rewrite (rag_model_name_truthy _ Hrag).
  change (default "" (Some name)) with name. rewrite Hrag, Hself.
  unfold copy, set_stop_token. rewrite Hc. cbn [heap trace].
  rewrite lookup_insert_eq. cbn [heap trace Nat.ltb Nat.leb List.length].
  unfold read_last_user_message.
  rewrite (flatten_single_user {| role := "user"; content := text |} eq_refl).
  unfold ret at 1, emit, call_contexts. rewrite Hself. cbn [heap trace content].
  destruct (get_contexts rag _ _) as [|context contexts].
  - cbn [first_item]. unfold raise. rewrite <- app_assoc, ?Hname.
    reflexivity.
  - unfold first_item, ret at 1, ret at 1, call_instruct, bind, deref.
    cbn [heap trace].
    rewrite !lookup_insert_ne by (eapply fresh_ne; exact Hc).
    rewrite Hc. unfold ret. cbn [heap trace].
    rewrite <- !app_assoc, ?Hname. reflexivity.
Qed.

(** C8: in RAG mode, [get_chat_completion] on a conversation of one user
    message either raises, having called no model backend and fetched at
    most the contexts of that message's content, or returns, having
    fetched the contexts of that message's content and then called the
    model backend once, with the caller's configuration.  It returns
    whenever the stop token is ["<paragraph>"] and the retrieval backend
    is there and gives one context per query. *)
Theorem chat_single_user_query self (m : Message) cfg st c (name : string) :
  heap st !! cfg = Some c ->
  model_name c = Some name ->
  contains "RAG" name = true ->
  role m = "user" ->
  let run := get_chat_completion self [m] cfg st in
  let fetch :=
    [ Printed ("context_query =  " ++ content m ++ nl);
      ContextsCall [content m] ] in
  let returns :=
    exists final_prompt answer,
      fst run = Return (remove_cruft answer)
      /\ trace (snd run)
         = (trace st ++ fetch ++ [InstructCall final_prompt c])%list in
  ((exists e, fst run = Raise e
              /\ (trace (snd run) = trace st
                  \/ trace (snd run) = (trace st ++ fetch)%list))
   \/ returns)
  /\ (forall rag,
        stop_token c = Some INIT_PARAGRAPH_TOKEN ->
        rag_interface self = Some rag ->
        (forall t qs,
            List.length (get_contexts rag t qs) = List.length qs) ->
        returns).
Proof.
  intros Hc Hname Hrag Hrole. cbv zeta.
  assert (Hrun : forall rag,
             stop_token c = Some INIT_PARAGRAPH_TOKEN ->
             rag_interface self = Some rag ->
             forall context contexts,
               get_contexts rag
                 (trace st
                  ++ [Printed ("context_query =  " ++ content m ++ nl)])
                 [content m] = context :: contexts ->
               exists final_prompt answer,
                 fst (get_chat_completion self [m] cfg st)
                 = Return (remove_cruft answer)
                 /\ trace (snd (get_chat_completion self [m] cfg st))
                    = (trace st
                       ++ [ Printed ("context_query =  " ++ content m ++ nl);
                            ContextsCall [content m] ]
                       ++ [InstructCall final_prompt c])%list).
  { intros rag Hs Hself context contexts E.
    rewrite (chat_single_user_run self rag m cfg st c name
               Hc Hs Hname Hrag Hself Hrole).
    cbv zeta. rewrite E. eexists _, _. split; reflexivity. }
  split.
  - destruct (decide (stop_token c = Some INIT_PARAGRAPH_TOKEN)) as [Hs|Hs].
    + destruct (rag_interface self) as [rag|] eqn:Hself.
      * destruct (get_contexts rag
                    (trace st
                     ++ [Printed ("context_query =  " ++ content m ++ nl)])
                    [content m]) as [|context contexts] eqn:E.
        -- left. exists IndexError.
           rewrite (chat_single_user_run self rag m cfg st c name
                      Hc Hs Hname Hrag Hself Hrole).
           cbv zeta. rewrite E. cbn [fst snd trace]. auto.
        -- right. exact (Hrun rag Hs eq_refl context contexts E).
      * left. eexists.
        unfold get_chat_completion, bind, deref.
        rewrite Hc, Hs, check_stop_token_ok, Hc, Hname.
        rewrite (rag_model_name_truthy _ Hrag).
        change (default "" (Some name)) with name. rewrite Hrag, Hself.
        cbn. auto.
    + left. eexists.
      rewrite (get_chat_completion_bad_stop_token self [m] cfg st c Hc Hs).
      cbn. auto.
  - intros rag Hs Hself Hlen.
    pose proof (Hlen (trace st
                      ++ [Printed ("context_query =  " ++ content m ++ nl)])%list
                  [content m]) as Hl.
    destruct (get_contexts rag
                (trace st
                 ++ [Printed ("context_query =  " ++ content m ++ nl)])
                [content m]) as [|context contexts] eqn:E;
      [discriminate Hl|].
    exact (Hrun rag Hs Hself context contexts E).
Qed.

(** ** What a call keeps of the store and of the trace *)

Lemma keeps_ret {A} (a : A) : keeps_objects (Sampling := Sampling) (ret a).
Proof. intros st l v H. exact H. Qed.

Lemma keeps_raise {A} (e : Exception) :
  keeps_objects (Sampling := Sampling) (raise (A := A) e).
Proof. intros st l v H. exact H. Qed.

Lemma keeps_bind {A B} (m : M A) (k : A -> M B) :
  keeps_objects (Sampling := Sampling) m ->
  (forall a, keeps_objects (k a)) ->
  keeps_objects (bind m k).
Proof.
  intros Hm Hk st l v H. unfold bind.
  specialize (Hm st l v H). destruct (m st) as [[a|e| |] st1]; cbn in *;
    try exact Hm.
  now apply Hk.
Qed.

Lemma keeps_deref cfg : keeps_objects (Sampling := Sampling) (deref cfg).
Proof.
  intros st l v H. unfold deref. now destruct (heap st !! cfg).
Qed.

Lemma keeps_emit (e : Event Sampling) : keeps_objects (emit e).
Proof. intros st l v H. exact H. Qed.

Lemma keeps_check_stop_token (t : option string) :
  keeps_objects (Sampling := Sampling) (_check_stop_token t).
Proof.
  intros st l v H. unfold _check_stop_token.
  destruct t as [t|]; [|exact H].
  now destruct (String.eqb t INIT_PARAGRAPH_TOKEN).
Qed.

Lemma keeps_call_instruct self (p : string) cfg :
  keeps_objects (call_instruct self p cfg).
Proof.
  apply keeps_bind; [apply keeps_deref|]. intros c st l v H. exact H.
Qed.

Lemma keeps_call_contexts self (qs : list string) :
  keeps_objects (call_contexts self qs).
Proof.
  unfold call_contexts. destruct (rag_interface self);
    [|apply keeps_raise]. intros st l v H. exact H.
Qed.

Lemma keeps_first_item (xs : list string) :
  keeps_objects (Sampling := Sampling) (first_item xs).
Proof. destruct xs; [apply keeps_raise | apply keeps_ret]. Qed.

Lemma keeps_read_last_user_message (l : ChatLocals) :
  keeps_objects (Sampling := Sampling) (read_last_user_message l).
Proof.
  unfold read_last_user_message.
  destruct (last_user_message l); [apply keeps_ret | apply keeps_raise].
Qed.

(** The copy is a new object: clearing its stop token touches no object
    that was there before. *)
Lemma keeps_copy_then_clear {B} cfg (k : loc -> M B) :
  (forall l', keeps_objects (Sampling := Sampling) (k l')) ->
  keeps_objects
    (bind (copy cfg)
          (fun l' => bind (set_stop_token l' None) (fun _ => k l'))).
Proof.
  intros Hk st l v H. unfold bind, copy, set_stop_token.
  destruct (heap st !! cfg) as [c|] eqn:Hc; [|exact H].
  cbn [heap trace]. rewrite lookup_insert_eq.
  apply Hk. cbn [heap].
  rewrite !lookup_insert_ne by (eapply fresh_ne; exact H). exact H.
Qed.

(** C9: every configuration object of the store, the caller's
    [generation_config] among them, has after [get_chat_completion] the
    fields it had before, on every path and whatever the call returns or
    raises; the stop token is cleared on a copy. *)
Theorem chat_keeps_generation_config self (conversation : list Message)
    cfg st c :
  heap st !! cfg = Some c ->
  heap (snd (get_chat_completion self conversation cfg st)) !! cfg
  = Some c.
Proof.
  enough (H : keeps_objects (get_chat_completion self conversation cfg))
    by (intros Hc; exact (H st cfg c Hc)).
  unfold get_chat_completion.
  repeat first
    [ apply keeps_ret | apply keeps_raise | apply keeps_deref
    | apply keeps_emit | apply keeps_check_stop_token
    | apply keeps_call_instruct | apply keeps_call_contexts
    | apply keeps_first_item | apply keeps_read_last_user_message
    | apply keeps_copy_then_clear; intros
    | apply keeps_bind; [|intros]
    | match goal with
      | |- keeps_objects (if ?b then _ else _) => destruct b
      | |- keeps_objects (match ?x with _ => _ end) => destruct x
      end ].
Qed.

Lemma appends_ret {A} (a : A) :
  appends_calls (Sampling := Sampling) (ret a).
Proof. intros st. exists []. cbn. now rewrite app_nil_r. Qed.

Lemma appends_raise {A} (e : Exception) :
  appends_calls (Sampling := Sampling) (raise (A := A) e).
Proof. intros st. exists []. cbn. now rewrite app_nil_r. Qed.

Lemma appends_out_of_fuel {A} :
  appends_calls (Sampling := Sampling) (out_of_fuel (A := A)).
Proof. intros st. exists []. cbn. now rewrite app_nil_r. Qed.

Lemma appends_bind {A B} (m : M A) (k : A -> M B) :
  appends_calls (Sampling := Sampling) m ->
  (forall a, appends_calls (k a)) ->
  appends_calls (bind m k).
Proof.
  intros Hm Hk st. unfold bind. destruct (Hm st) as [t1 H1].
  destruct (m st) as [[a|e| |] st1]; cbn in *; eauto.
  destruct (Hk a st1) as [t2 H2]. exists (t1 ++ t2)%list.
  now rewrite H2, H1, app_assoc.
Qed.

Lemma appends_deref cfg : appends_calls (Sampling := Sampling) (deref cfg).
Proof.
  intros st. exists []. unfold deref.
  destruct (heap st !! cfg); cbn; now rewrite app_nil_r.
Qed.

Lemma appends_call_instruct self (p : string) cfg :
  appends_calls (call_instruct self p cfg).
Proof.
  apply appends_bind; [apply appends_deref|]. intros c st. cbn. eauto.
Qed.

Lemma appends_call_contexts self (qs : list string) :
  appends_calls (call_contexts self qs).
Proof.
  unfold call_contexts. destruct (rag_interface self);
    [|apply appends_raise]. intros st. cbn. eauto.
Qed.

Lemma appends_first_item (xs : list string) :
  appends_calls (Sampling := Sampling) (first_item xs).
Proof. destruct xs; [apply appends_raise | apply appends_ret]. Qed.

Lemma appends_rag_round self (prompt : string) cfg (completion : string) :
  appends_calls (rag_round self prompt cfg completion).
Proof.
  unfold rag_round.
  repeat first
    [ apply appends_ret | apply appends_raise | apply appends_call_instruct
    | apply appends_call_contexts | apply appends_first_item
    | apply appends_bind; [|intros]
    | match goal with
      | |- appends_calls (if ?b then _ else _) => destruct b
      end ].
Qed.

Lemma appends_rag_loop self (fuel : nat) (prompt : string) cfg
    (completion : string) :
  appends_calls (rag_loop self fuel prompt cfg completion).
Proof.
  revert completion; induction fuel as [|fuel IH]; intros completion;
    cbn [rag_loop]; [apply appends_out_of_fuel|].
  apply appends_bind; [apply appends_rag_round|].
  intros [done|next]; [apply appends_ret | apply IH].
Qed.

(** ** The retrieval loop *)

(** What a pass of the loop does when the completion it reaches ends
    with the retrieval token. *)
Lemma rag_round_retrieves self (rag : RAGInterface Sampling)
    (prompt : string) cfg (completion : string) st c :
  heap st !! cfg = Some c ->
  rag_interface self = Some rag ->
  let asked := format_prompt prompt ++ completion in
  let reached :=
    completion
    ++ strip (get_instruct_completion (_model self) (trace st) asked c) in
  let st2 :=
    {| heap := heap st;
       trace := trace st
                ++ [ InstructCall asked c;
                     ContextsCall [context_query prompt reached] ] |} in
  endswith RETRIEVAL_TOKEN reached = true ->
  rag_round self prompt cfg completion st
  = match get_contexts rag (trace st ++ [InstructCall asked c])
            [context_query prompt reached] with
    | context :: _ =>
        (Return (inr (reached ++ INIT_PARAGRAPH_TOKEN ++ context
                      ++ END_PARAGRAPH_TOKEN)), st2)
    | [] => (Raise IndexError, st2)
    end.
Proof.
  intros Hc Hself asked reached st2 Hends.
  unfold rag_round, bind, call_instruct, bind, deref. rewrite Hc.
  cbn [heap trace]. fold asked. fold reached. rewrite Hends.
  cbn [negb]. unfold call_contexts. rewrite Hself. cbn [heap trace].
  subst st2. rewrite <- app_assoc. cbn [app].
  destruct (get_contexts rag _ _); reflexivity.
Qed.

(** C4: when a pass of the loop of [get_completion] reaches a completion
    that ends with the retrieval token, the call that follows the model
    call in the trace is the fetch of one query: the original prompt when
    the completion is the retrieval token alone, [remove_cruft] of the
    completion otherwise. *)
Theorem rag_loop_next_query self (rag : RAGInterface Sampling)
    (fuel : nat) (prompt : string) cfg (completion : string) st c :
  heap st !! cfg = Some c ->
  rag_interface self = Some rag ->
  let asked := format_prompt prompt ++ completion in
  let reached :=
    completion
    ++ strip (get_instruct_completion (_model self) (trace st) asked c) in
  endswith RETRIEVAL_TOKEN reached = true ->
  exists later,
    trace (snd (rag_loop self (S fuel) prompt cfg completion st))
    = (trace st
       ++ [ InstructCall asked c;
            ContextsCall
              [ if String.eqb reached RETRIEVAL_TOKEN then prompt
                else remove_cruft reached ] ]
       ++ later)%list.
Proof.
  intros Hc Hself asked reached Hends.
  cbn [rag_loop]. unfold bind.
  rewrite (rag_round_retrieves self rag prompt cfg completion st c
             Hc Hself Hends).
  fold asked. fold reached. unfold context_query.
  destruct (get_contexts rag _ _) as [|context contexts].
  - exists []. cbn [snd trace]. now rewrite app_nil_r.
  - match goal with
    | |- context [rag_loop self fuel prompt cfg ?k ?s] =>
        destruct (appends_rag_loop self fuel prompt cfg k s) as [later H]
    end.
    exists later. rewrite H. cbn [trace]. now rewrite <- app_assoc.
Qed.

(** What a pass of the loop does when the completion it reaches does
    not end with the retrieval token. *)
Lemma rag_round_breaks self (prompt : string) cfg (completion : string)
    st c :
  heap st !! cfg = Some c ->
  let asked := format_prompt prompt ++ completion in
  let reached :=
    completion
    ++ strip (get_instruct_completion (_model self) (trace st) asked c) in
  endswith RETRIEVAL_TOKEN reached = false ->
  rag_round self prompt cfg completion st
  = (Return (inl reached),
     {| heap := heap st; trace := trace st ++ [InstructCall asked c] |}).
Proof.
  intros Hc asked reached Hends.
  unfold rag_round, bind, call_instruct, bind, deref. rewrite Hc.
  cbn [heap trace]. fold asked. fold reached. now rewrite Hends.
Qed.

Lemma instruct_calls_app (t1 t2 : list (Event Sampling)) :
  instruct_calls (t1 ++ t2) = instruct_calls t1 + instruct_calls t2.
Proof. unfold instruct_calls. now rewrite filter_app, length_app. Qed.

(** C5, amended: in RAG mode with the stop token ["<paragraph>"], a
    model backend that answers ["[Retrieval]"] and then ["final answer"],
    and a retrieval backend that returns one context per query, none
    holding ["</paragraph>"]: [get_completion] returns ["final answer"]
    for every fuel of two passes or more, after one fetch, of the
    prompt, between the two model calls. *)
Theorem get_completion_one_retrieval self (rag : RAGInterface Sampling)
    (fuel : nat) (prompt : string) cfg st c (name : string) :
  heap st !! cfg = Some c ->
  stop_token c = Some INIT_PARAGRAPH_TOKEN ->
  model_name c = Some name ->
  contains "RAG" name = true ->
  rag_interface self = Some rag ->
  (forall t qs, List.length (get_contexts rag t qs) = List.length qs) ->
  (forall t qs ctx,
      In ctx (get_contexts rag t qs) ->
      contains END_PARAGRAPH_TOKEN ctx = false) ->
  answers_nth self st 0 "[Retrieval]" ->
  answers_nth self st 1 "final answer" ->
  exists context,
    get_completion self (S (S fuel)) prompt cfg st
    = (Return "final answer",
       {| heap := heap st;
          trace := trace st
            ++ [ InstructCall (format_prompt prompt) c;
                 ContextsCall [prompt];
                 InstructCall
                   (format_prompt prompt ++ RETRIEVAL_TOKEN
                    ++ INIT_PARAGRAPH_TOKEN ++ context
                    ++ END_PARAGRAPH_TOKEN) c ] |}).
Proof.
  intros Hc Hs Hname Hrag Hself Hlen Hclean Hfirst Hsecond.
  unfold get_completion, bind, deref.
  rewrite Hc, Hs, check_stop_token_ok, Hc, Hname.
  rewrite (rag_model_name_truthy _ Hrag).
  change (default "" (Some name)) with name. rewrite Hrag, Hself.
  cbn [negb rag_loop]. unfold bind.
  (* first pass *)
  pose proof (Hfirst (trace st) (format_prompt prompt ++ "") c
                ltac:(lia)) as E1.
  rewrite (rag_round_retrieves self rag prompt cfg "" st c Hc Hself)
    by (rewrite E1; reflexivity).
  rewrite E1.
  change ("" ++ strip "[Retrieval]") with RETRIEVAL_TOKEN.
  change (context_query prompt RETRIEVAL_TOKEN) with prompt.
  match goal with
  | |- context [get_contexts rag ?t ?qs] =>
      pose proof (Hlen t qs) as Hl; pose proof (Hclean t qs) as Hcl;
      destruct (get_contexts rag t qs) as [|context [|? ?]];
      try discriminate Hl
  end.
  specialize (Hcl context (or_introl eq_refl)).
  exists context.
  (* second pass *)
  set (st2 := {| heap := heap st; trace := _ |}).
  set (completion2 := RETRIEVAL_TOKEN ++ INIT_PARAGRAPH_TOKEN ++ context
                      ++ END_PARAGRAPH_TOKEN).
  assert (Hc2 : heap st2 !! cfg = Some c) by exact Hc.
  assert (E2 : get_instruct_completion (_model self) (trace st2)
                 (format_prompt prompt ++ completion2) c
               = "final answer").
  { apply Hsecond. subst st2. cbn [trace].
    rewrite instruct_calls_app. reflexivity. }
  assert (Hends : endswith RETRIEVAL_TOKEN
                    (completion2 ++ strip "final answer") = false).
  { change (strip "final answer") with "final answer".
    rewrite endswith_append_long by (vm_compute; lia). reflexivity. }
  pose proof (rag_round_breaks self prompt cfg completion2 st2 c Hc2)
    as Hround.
  cbv zeta in Hround. rewrite E2 in Hround. rewrite (Hround Hends).
  unfold ret. subst st2 completion2. cbn [heap trace].
  change (strip "final answer") with "final answer".
  rewrite !append_assoc, (remove_cruft_spliced _ _ Hcl).
  rewrite append_nil_r, <- app_assoc. reflexivity.
Qed.

(** ** The configuration checks *)

Lemma named_truthy (name : string) : name <> "" -> falsy (Some name) = false.
Proof. destruct name; [congruence | reflexivity]. Qed.

(** X5: with the stop token in place and a model name that is missing or
    empty, [get_completion] and [get_chat_completion] raise
    ["No model name provided"] in the state they were called in: no
    backend was called. *)
Theorem missing_model_name self (fuel : nat) (prompt : string)
    (conversation : list Message) cfg st c :
  heap st !! cfg = Some c ->
  stop_token c = Some INIT_PARAGRAPH_TOKEN ->
  falsy (model_name c) = true ->
  get_completion self fuel prompt cfg st
  = (Raise (ValueError "No model name provided"), st)
  /\ get_chat_completion self conversation cfg st
     = (Raise (ValueError "No model name provided"), st).
Proof.
  intros Hc Hs Hname.
  unfold get_completion, get_chat_completion, bind, deref.
  rewrite Hc, Hs, check_stop_token_ok, Hc, Hname. split; reflexivity.
Qed.

(** X6: with a model name that holds ["RAG"] and no retrieval backend,
    [get_completion] and [get_chat_completion] raise their [ValueError] in
    the state they were called in: the model backend was not called and no
    configuration was copied. *)
Theorem rag_without_backend self (fuel : nat) (prompt : string)
    (conversation : list Message) cfg st c (name : string) :
  heap st !! cfg = Some c ->
  stop_token c = Some INIT_PARAGRAPH_TOKEN ->
  model_name c = Some name ->
  contains "RAG" name = true ->
  rag_interface self = None ->
  get_completion self fuel prompt cfg st
  = (Raise (ValueError "RAG model requested, but no RAG interface provided"),
     st)
  /\ get_chat_completion self conversation cfg st
     = (Raise (ValueError
                 "RAG generation requested but no RAG interface provided"),
        st).
Proof.
  intros Hc Hs Hname Hrag Hself.
  unfold get_completion, get_chat_completion, bind, deref.
  rewrite Hc, Hs, check_stop_token_ok, Hc, Hname.
  rewrite (rag_model_name_truthy _ Hrag).
  change (default "" (Some name)) with name. rewrite Hrag, Hself.
  split; reflexivity.
Qed.

(** ** [get_completion] outside and inside the loop *)

(** X7: with a model name that does not hold ["RAG"], [get_completion]
    calls the model backend once, with the prompt as it was given, and
    returns the answer stripped of surrounding white space: the prompt is
    not formatted, control tokens stay in the answer, and the retrieval
    backend is not called even when there is one. *)
Theorem get_completion_plain self (fuel : nat) (prompt : string) cfg st c
    (name : string) :
  heap st !! cfg = Some c ->
  stop_token c = Some INIT_PARAGRAPH_TOKEN ->
  model_name c = Some name ->
  name <> "" ->
  contains "RAG" name = false ->
  get_completion self fuel prompt cfg st
  = (Return (strip (get_instruct_completion (_model self) (trace st)
                      prompt c)),
     {| heap := heap st; trace := trace st ++ [InstructCall prompt c] |}).
Proof.
  intros Hc Hs Hname Hne Hrag.
  unfold get_completion, bind, deref.
  rewrite Hc, Hs, check_stop_token_ok, Hc, Hname, (named_truthy _ Hne).
  change (default "" (Some name)) with name. rewrite Hrag. cbn [negb].
  unfold call_instruct, bind, deref. now rewrite Hc.
Qed.

(** X8: in RAG mode, when the first answer of the model backend, stripped,
    does not end with the retrieval token, [get_completion] returns that
    answer cleaned by [remove_cruft] and stripped again, after one model
    call on the formatted prompt and no fetch. *)
Theorem get_completion_no_retrieval self (rag : RAGInterface Sampling)
    (fuel : nat) (prompt : string) cfg st c (name : string) :
  heap st !! cfg = Some c ->
  stop_token c = Some INIT_PARAGRAPH_TOKEN ->
  model_name c = Some name ->
  contains "RAG" name = true ->
  rag_interface self = Some rag ->
  let answer :=
    get_instruct_completion (_model self) (trace st) (format_prompt prompt)
      c in
  endswith RETRIEVAL_TOKEN (strip answer) = false ->
  get_completion self (S fuel) prompt cfg st
  = (Return (strip (remove_cruft (strip answer))),
     {| heap := heap st;
        trace := trace st ++ [InstructCall (format_prompt prompt) c] |}).
Proof.
  intros Hc Hs Hname Hrag Hself answer Hends.
  unfold get_completion, bind, deref.
  rewrite Hc, Hs, check_stop_token_ok, Hc, Hname.
  rewrite (rag_model_name_truthy _ Hrag).
  change (default "" (Some name)) with name. rewrite Hrag, Hself.
  cbn [negb rag_loop]. unfold bind.
  pose proof (rag_round_breaks self prompt cfg "" st c Hc) as Hround.
  cbv zeta in Hround. rewrite append_nil_r in Hround.
  change ("" ++ ?x) with x in Hround. fold answer in Hround.
  now rewrite (Hround Hends).
Qed.

Lemma contexts_calls_app (t1 t2 : list (Event Sampling)) :
  contexts_calls (t1 ++ t2) = contexts_calls t1 + contexts_calls t2.
Proof. unfold contexts_calls. now rewrite filter_app, length_app. Qed.

Lemma state_eta st : {| heap := heap st; trace := trace st ++ [] |} = st.
Proof. destruct st. cbn. now rewrite app_nil_r. Qed.

Lemma endswith_append_r (suf a b : string) :
  endswith suf b = true -> endswith suf (a ++ b) = true.
Proof.
  intros H. rewrite endswith_append_long; [exact H|].
  now apply endswith_length.
Qed.

(** The loop against a model backend whose every answer ends with the
    retrieval token and a retrieval backend that has a context for every
    single query. *)
Lemma rag_loop_diverges self (rag : RAGInterface Sampling) (prompt : string)
    cfg c :
  rag_interface self = Some rag ->
  (forall t p c',
      endswith RETRIEVAL_TOKEN
        (strip (get_instruct_completion (_model self) t p c')) = true) ->
  (forall t q, get_contexts rag t [q] <> []) ->
  forall (fuel : nat) (completion : string) st,
    heap st !! cfg = Some c ->
    exists later,
      rag_loop self fuel prompt cfg completion st
      = (OutOfFuel, {| heap := heap st; trace := trace st ++ later |})
      /\ instruct_calls later = fuel
      /\ contexts_calls later = fuel.
Proof.
  intros Hself Hask Hctx. induction fuel as [|fuel IH]; intros completion st Hc.
  - exists []. cbn [rag_loop]. unfold out_of_fuel.
    now rewrite state_eta.
  - cbn [rag_loop]. unfold bind.
    rewrite (rag_round_retrieves self rag prompt cfg completion st c
               Hc Hself)
      by (apply endswith_append_r, Hask).
    destruct (get_contexts rag _ _) as [|context contexts] eqn:E;
      [now apply Hctx in E|].
    match goal with
    | |- context [rag_loop self fuel prompt cfg ?k ?s] =>
        destruct (IH k s Hc) as [later [Hrun [Hi Hf]]]; rewrite Hrun
    end.
    cbn [heap trace].
    eexists (_ :: _ :: later). rewrite <- app_assoc. cbn [app].
    split; [reflexivity|].
    unfold instruct_calls, contexts_calls in *. cbn. lia.
Qed.

(** X9: in RAG mode, against a model backend whose every answer, stripped,
    ends with the retrieval token and a retrieval backend that returns a
    context for every single query, the loop of [get_completion] does not
    end: whatever
    the fuel, the run is still going when it is spent, after as many model
    calls and as many fetches as there was fuel. *)
Theorem get_completion_never_returns self (rag : RAGInterface Sampling)
    (fuel : nat) (prompt : string) cfg st c (name : string) :
  heap st !! cfg = Some c ->
  stop_token c = Some INIT_PARAGRAPH_TOKEN ->
  model_name c = Some name ->
  contains "RAG" name = true ->
  rag_interface self = Some rag ->
  (forall t p c',
      endswith RETRIEVAL_TOKEN
        (strip (get_instruct_completion (_model self) t p c')) = true) ->
  (forall t q, get_contexts rag t [q] <> []) ->
  exists later,
    get_completion self fuel prompt cfg st
    = (OutOfFuel, {| heap := heap st; trace := trace st ++ later |})
    /\ instruct_calls later = fuel
    /\ contexts_calls later = fuel.
Proof.
  intros Hc Hs Hname Hrag Hself Hask Hctx.
  unfold get_completion, bind, deref.
  rewrite Hc, Hs, check_stop_token_ok, Hc, Hname.
  rewrite (rag_model_name_truthy _ Hrag).
  change (default "" (Some name)) with name. rewrite Hrag, Hself.
  cbn [negb].
  destruct (rag_loop_diverges self rag prompt cfg c Hself Hask Hctx
              fuel "" st Hc) as [later [Hrun Hcount]].
  exists later. now rewrite Hrun.
Qed.

(** The calls of the loop: model call, fetch, model call, ... *)
Lemma rag_loop_calls self (rag : RAGInterface Sampling) (prompt : string)
    cfg c :
  rag_interface self = Some rag ->
  forall (fuel : nat) (completion : string) st,
    heap st !! cfg = Some c ->
    exists later,
      snd (rag_loop self fuel prompt cfg completion st)
      = {| heap := heap st; trace := trace st ++ later |}
      /\ Forall (loop_event c) later
      /\ match fst (rag_loop self fuel prompt cfg completion st) with
         | Return _ => instruct_calls later = S (contexts_calls later)
         | Raise e =>
             e = IndexError /\ instruct_calls later = contexts_calls later
         | OutOfFuel =>
             instruct_calls later = fuel /\ contexts_calls later = fuel
         | Wrong => False
         end.
Proof.
  intros Hself. induction fuel as [|fuel IH]; intros completion st Hc.
  - exists []. cbn. rewrite state_eta. auto.
  - cbn [rag_loop]. unfold bind.
    set (asked := format_prompt prompt ++ completion).
    set (reached :=
           completion
           ++ strip (get_instruct_completion (_model self) (trace st)
                       asked c)).
    destruct (endswith RETRIEVAL_TOKEN reached) eqn:Hends.
    + rewrite (rag_round_retrieves self rag prompt cfg completion st c
                 Hc Hself Hends).
      fold asked. fold reached.
      destruct (get_contexts rag _ _) as [|context contexts].
      * eexists [_; _]. cbn [fst snd].
        split; [reflexivity|]. split; [|now cbn].
        repeat constructor.
      * match goal with
        | |- context [rag_loop self fuel prompt cfg ?k ?s] =>
            destruct (IH k s Hc) as [later [Hst [Hev Hcount]]];
            destruct (rag_loop self fuel prompt cfg k s) as [o st']
        end.
        cbn [fst snd heap trace] in *. subst st'.
        eexists (_ :: _ :: later). rewrite <- app_assoc. cbn [app].
        split; [destruct o; reflexivity|].
        split; [repeat constructor; exact Hev|].
        unfold instruct_calls, contexts_calls in *.
        destruct o; cbn in *; try lia. destruct Hcount. split; [assumption|].
        lia.
    + rewrite (rag_round_breaks self prompt cfg completion st c Hc Hends).
      fold asked. eexists [_]. cbn [fst snd].
      split; [reflexivity|]. split; [|now cbn].
      repeat constructor.
Qed.

(** X10: in RAG mode with a retrieval backend, all that [get_completion]
    sends out are model calls with the caller's configuration and fetches
    of a single query, and it leaves the store as it is.  A run that
    returns has made one model call more than fetches; a run that raises
    does so on the empty answer of a fetch, after as many model calls as
    fetches. *)
Theorem get_completion_calls self (rag : RAGInterface Sampling)
    (fuel : nat) (prompt : string) cfg st c (name : string) :
  heap st !! cfg = Some c ->
  stop_token c = Some INIT_PARAGRAPH_TOKEN ->
  model_name c = Some name ->
  contains "RAG" name = true ->
  rag_interface self = Some rag ->
  exists later,
    snd (get_completion self fuel prompt cfg st)
    = {| heap := heap st; trace := trace st ++ later |}
    /\ Forall (loop_event c) later
    /\ match fst (get_completion self fuel prompt cfg st) with
       | Return _ => instruct_calls later = S (contexts_calls later)
       | Raise e =>
           e = IndexError /\ instruct_calls later = contexts_calls later
       | OutOfFuel =>
           instruct_calls later = fuel /\ contexts_calls later = fuel
       | Wrong => False
       end.
Proof.
  intros Hc Hs Hname Hrag Hself.
  unfold get_completion, bind, deref.
  rewrite Hc, Hs, check_stop_token_ok, Hc, Hname.
  rewrite (rag_model_name_truthy _ Hrag).
  change (default "" (Some name)) with name. rewrite Hrag, Hself.
  cbn [negb].
  destruct (rag_loop_calls self rag prompt cfg c Hself fuel "" st Hc)
    as [later [Hst [Hev Hcount]]].
  exists later.
  destruct (rag_loop self fuel prompt cfg "" st) as [[r|e| |] st'];
    cbn [fst snd] in *; auto.
Qed.

(** X11: whatever [get_completion] returns has no white space at either
    end: both of its return statements strip the text. *)
Theorem get_completion_trimmed self (fuel : nat) (prompt : string) cfg st
    (r : string) :
  fst (get_completion self fuel prompt cfg st) = Return r -> strip r = r.
Proof.
  unfold get_completion, call_instruct, bind, deref.
  destruct (heap st !! cfg) as [c|]; [|discriminate].
  destruct (_check_stop_token (stop_token c) st) as [[[]|e| |] st1];
    try discriminate.
  destruct (heap st1 !! cfg) as [c1|]; [|discriminate].
  destruct (falsy (model_name c1)); [discriminate|].
  destruct (negb (contains "RAG" (default "" (model_name c1)))).
  - destruct (heap st1 !! cfg); cbn [fst ret]; [|discriminate].
    intros [= <-]. apply strip_strip.
  - destruct (rag_interface self); [|discriminate].
    destruct (rag_loop self fuel prompt cfg "" st1) as [[a|e| |] st2];
      try discriminate.
    cbn [fst ret]. intros [= <-]. apply strip_strip.
Qed.

(** ** The store under [get_completion] and [get_batch_completion] *)

Lemma keeps_store_ret {A} (a : A) : keeps_store (Sampling := Sampling) (ret a).
Proof. intros st. reflexivity. Qed.

Lemma keeps_store_raise {A} (e : Exception) :
  keeps_store (Sampling := Sampling) (raise (A := A) e).
Proof. intros st. reflexivity. Qed.

Lemma keeps_store_bind {A B} (m : M A) (k : A -> M B) :
  keeps_store (Sampling := Sampling) m ->
  (forall a, keeps_store (k a)) ->
  keeps_store (bind m k).
Proof.
  intros Hm Hk st. unfold bind. specialize (Hm st).
  destruct (m st) as [[a|e| |] st1]; cbn in *; try exact Hm.
  now rewrite Hk.
Qed.

Lemma keeps_store_deref cfg : keeps_store (Sampling := Sampling) (deref cfg).
Proof. intros st. unfold deref. now destruct (heap st !! cfg). Qed.

Lemma keeps_store_check (t : option string) :
  keeps_store (Sampling := Sampling) (_check_stop_token t).
Proof.
  intros st. unfold _check_stop_token. destruct t as [t|]; [|reflexivity].
  now destruct (String.eqb t INIT_PARAGRAPH_TOKEN).
Qed.

Lemma keeps_store_call_instruct self (p : string) cfg :
  keeps_store (call_instruct self p cfg).
Proof.
  apply keeps_store_bind; [apply keeps_store_deref|]. intros c st.
  reflexivity.
Qed.

Lemma keeps_store_call_contexts self (qs : list string) :
  keeps_store (call_contexts self qs).
Proof.
  unfold call_contexts. destruct (rag_interface self);
    [|apply keeps_store_raise]. intros st. reflexivity.
Qed.

Lemma keeps_store_first_item (xs : list string) :
  keeps_store (Sampling := Sampling) (first_item xs).
Proof. destruct xs; [apply keeps_store_raise | apply keeps_store_ret]. Qed.

Lemma keeps_store_rag_loop self (fuel : nat) (prompt : string) cfg
    (completion : string) :
  keeps_store (rag_loop self fuel prompt cfg completion).
Proof.
  revert completion; induction fuel as [|fuel IH]; intros completion;
    cbn [rag_loop]; [intros st; reflexivity|].
  apply keeps_store_bind; [|intros [done|next];
                            [apply keeps_store_ret | apply IH]].
  unfold rag_round.
  repeat first
    [ apply keeps_store_ret | apply keeps_store_call_instruct
    | apply keeps_store_call_contexts | apply keeps_store_first_item
    | apply keeps_store_bind; [|intros]
    | match goal with
      | |- keeps_store (if ?b then _ else _) => destruct b
      end ].
Qed.

(** X12: [get_completion] and [get_batch_completion] leave the store of
    configuration objects as it is, on every path: they create no object
    and write to none. *)
Theorem completion_keeps_store self (fuel : nat) (prompt : string)
    (prompts : list string) cfg st :
  heap (snd (get_completion self fuel prompt cfg st)) = heap st
  /\ heap (snd (get_batch_completion self prompts cfg st)) = heap st.
Proof.
  split.
  - enough (H : keeps_store (get_completion self fuel prompt cfg))
      by apply H.
    unfold get_completion.
    repeat first
      [ apply keeps_store_ret | apply keeps_store_raise
      | apply keeps_store_deref | apply keeps_store_check
      | apply keeps_store_call_instruct | apply keeps_store_rag_loop
      | apply keeps_store_bind; [|intros]
      | match goal with
        | |- keeps_store (if ?b then _ else _) => destruct b
        | |- keeps_store (match ?x with _ => _ end) => destruct x
        end ].
  - enough (H : keeps_store (get_batch_completion self prompts cfg))
      by apply H.
    unfold get_batch_completion, call_batch_instruct.
    apply keeps_store_bind; [apply keeps_store_deref|]. intros c st'.
    reflexivity.
Qed.

(** ** The flattening of a conversation *)

Lemma chat_message_unknown (l : ChatLocals) (m : Message) :
  known_role m = false -> chat_message l m = l.
Proof.
  unfold known_role, chat_message. intros H.
  apply orb_false_elim in H as [H H3]. apply orb_false_elim in H as [H1 H2].
  now rewrite H1, H2, H3.
Qed.

Lemma chat_message_from (l : ChatLocals) (m : Message) :
  let b := chat_message {| prompt := ""; added_system_prompt := false;
                           last_user_message := None |} m in
  chat_message l m
  = {| prompt := prompt l ++ prompt b;
       added_system_prompt := added_system_prompt l || added_system_prompt b;
       last_user_message :=
         match last_user_message b with
         | Some text => Some text
         | None => last_user_message l
         end |}.
Proof.
  destruct l as [p a u]. unfold chat_message. cbn [prompt added_system_prompt
    last_user_message].
  destruct (String.eqb (role m) "system");
    [cbn; now rewrite orb_true_r|].
  destruct (String.eqb (role m) "user");
    [cbn; now rewrite orb_false_r|].
  destruct (String.eqb (role m) "assistant");
    cbn; now rewrite orb_false_r, ?append_nil_r.
Qed.

Lemma fold_chat_message (b : list Message) (l : ChatLocals) :
  fold_left chat_message b l
  = {| prompt := prompt l ++ prompt (flatten b);
       added_system_prompt :=
         added_system_prompt l || added_system_prompt (flatten b);
       last_user_message :=
         match last_user_message (flatten b) with
         | Some text => Some text
         | None => last_user_message l
         end |}.
Proof.
  revert l; induction b as [|m b IH]; intros l.
  - destruct l as [p a u]. cbn. now rewrite append_nil_r, orb_false_r.
  - unfold flatten. cbn [fold_left]. rewrite (IH (chat_message l m)).
    rewrite (IH (chat_message _ m)).
    rewrite (chat_message_from l m). cbv zeta.
    set (b1 := chat_message _ m). cbn [prompt added_system_prompt
      last_user_message].
    fold (flatten b). rewrite append_assoc, orb_assoc.
    f_equal. now destruct (last_user_message (flatten b)).
Qed.

(** X13: flattening a conversation in two parts: the prompt of the whole
    is the prompt of the first part followed by that of the second, a
    system message was met when either part has one, and the last user
    message is that of the second part, or of the first when the second
    has none. *)
Theorem flatten_app (a b : list Message) :
  flatten (a ++ b)
  = {| prompt := prompt (flatten a) ++ prompt (flatten b);
       added_system_prompt :=
         added_system_prompt (flatten a) || added_system_prompt (flatten b);
       last_user_message :=
         match last_user_message (flatten b) with
         | Some text => Some text
         | None => last_user_message (flatten a)
         end |}.
Proof.
  unfold flatten at 1. rewrite fold_left_app. fold (flatten a).
  apply fold_chat_message.
Qed.

(** X14: a message whose role is none of ["system"], ["user"] and
    ["assistant"] leaves no mark on the prompt: a conversation and the same
    conversation without such messages are flattened to the same prompt. *)
Theorem chat_prompt_known_roles (conversation : list Message) :
  chat_prompt conversation = chat_prompt (List.filter known_role conversation).
Proof.
  enough (H : forall l,
             fold_left chat_message conversation l
             = fold_left chat_message (List.filter known_role conversation) l)
    by (unfold chat_prompt, flatten; now rewrite H).
  induction conversation as [|m conversation IH]; intros l; [reflexivity|].
  cbn [List.filter fold_left].
  destruct (known_role m) eqn:E.
  - cbn [fold_left]. apply IH.
  - rewrite (chat_message_unknown l m E). apply IH.
Qed.

(** ** [get_chat_completion] outside RAG mode and on longer conversations *)

(** X15: with a model name that does not hold ["RAG"],
    [get_chat_completion] calls the model backend once, on the flattened
    conversation followed by an empty response block, with the caller's
    configuration, and returns the answer cleaned by [remove_cruft]; the
    store is as it was and the retrieval backend is not called. *)
Theorem chat_plain self (conversation : list Message) cfg st c
    (name : string) :
  heap st !! cfg = Some c ->
  stop_token c = Some INIT_PARAGRAPH_TOKEN ->
  model_name c = Some name ->
  name <> "" ->
  contains "RAG" name = false ->
  let asked := chat_prompt conversation ++ "### Response:" ++ nl in
  get_chat_completion self conversation cfg st
  = (Return (remove_cruft
               (get_instruct_completion (_model self) (trace st) asked c)),
     {| heap := heap st; trace := trace st ++ [InstructCall asked c] |}).
Proof.
  intros Hc Hs Hname Hne Hrag asked.
  unfold get_chat_completion, bind, deref.
  rewrite Hc, Hs, check_stop_token_ok, Hc, Hname, (named_truthy _ Hne).
  change (default "" (Some name)) with name. rewrite Hrag.
  unfold ret at 1, call_instruct, bind, deref. now rewrite Hc.
Qed.


(** X17: the empty conversation.  Outside RAG mode the model backend is
    called on the default system block followed by an empty response
    block; in RAG mode with a retrieval backend the call fails on the read
    of the unbound [last_user_message], before any backend is called. *)
Theorem chat_empty_conversation self cfg st c (name : string) :
  heap st !! cfg = Some c ->
  stop_token c = Some INIT_PARAGRAPH_TOKEN ->
  model_name c = Some name ->
  name <> "" ->
  let run := get_chat_completion self [] cfg st in
  let asked :=
    "### System:" ++ nl ++ ALPACA_CHAT_SYSTEM_PROMPT ++ "." ++ nl ++ nl
    ++ "### Response:" ++ nl in
  if contains "RAG" name
  then rag_interface self <> None ->
       fst run = Raise (UnboundLocalError "last_user_message")
       /\ trace (snd run) = trace st
  else run
       = (Return (remove_cruft
                    (get_instruct_completion (_model self) (trace st)
                       asked c)),
          {| heap := heap st; trace := trace st ++ [InstructCall asked c] |}).
Proof.
  intros Hc Hs Hname Hne. cbv zeta.
  unfold get_chat_completion, bind, deref.
  rewrite Hc, Hs, check_stop_token_ok, Hc, Hname, (named_truthy _ Hne).
  change (default "" (Some name)) with name.
  destruct (contains "RAG" name).
  - intros Hself. destruct (rag_interface self) as [rag|]; [|congruence].
    unfold copy, set_stop_token. rewrite Hc. cbn [heap trace].
    rewrite lookup_insert_eq. cbn. auto.
  - unfold ret at 1, call_instruct, bind, deref. now rewrite Hc.
Qed.

(** ** How many calls [get_chat_completion] makes *)

Lemma calls_none {A} (i f : nat) (m : M A) :
  (forall st, trace (snd (m st)) = trace st) -> calls_at_most i f m.
Proof.
  intros H st. exists []. rewrite H, app_nil_r.
  repeat split; cbn; lia.
Qed.

Lemma calls_bind {A B} (i1 i2 f1 f2 : nat) (m : M A) (k : A -> M B) :
  calls_at_most (Sampling := Sampling) i1 f1 m ->
  (forall a, calls_at_most i2 f2 (k a)) ->
  calls_at_most (i1 + i2) (f1 + f2) (bind m k).
Proof.
  intros Hm Hk st. unfold bind. destruct (Hm st) as [t1 [H1 [Hi1 Hf1]]].
  destruct (m st) as [[a|e| |] st1]; cbn [snd] in *;
    try (exists t1; repeat split; [assumption | lia | lia]).
  destruct (Hk a st1) as [t2 [H2 [Hi2 Hf2]]].
  exists (t1 ++ t2)%list. rewrite H2, H1, app_assoc.
  rewrite instruct_calls_app, contexts_calls_app.
  repeat split; try reflexivity; lia.
Qed.

Lemma calls_ret {A} (i f : nat) (a : A) :
  calls_at_most (Sampling := Sampling) i f (ret a).
Proof. now apply calls_none. Qed.

Lemma calls_raise {A} (i f : nat) (e : Exception) :
  calls_at_most (Sampling := Sampling) i f (raise (A := A) e).
Proof. now apply calls_none. Qed.

Lemma calls_deref (i f : nat) cfg :
  calls_at_most (Sampling := Sampling) i f (deref cfg).
Proof.
  apply calls_none. intros st. unfold deref. now destruct (heap st !! cfg).
Qed.

Lemma calls_check (i f : nat) (t : option string) :
  calls_at_most (Sampling := Sampling) i f (_check_stop_token t).
Proof.
  apply calls_none. intros st. unfold _check_stop_token.
  destruct t as [t|]; [|reflexivity].
  now destruct (String.eqb t INIT_PARAGRAPH_TOKEN).
Qed.

Lemma calls_copy (i f : nat) cfg :
  calls_at_most (Sampling := Sampling) i f (copy cfg).
Proof.
  apply calls_none. intros st. unfold copy. now destruct (heap st !! cfg).
Qed.

Lemma calls_set_stop_token (i f : nat) cfg (v : option string) :
  calls_at_most (Sampling := Sampling) i f (set_stop_token cfg v).
Proof.
  apply calls_none. intros st. unfold set_stop_token.
  now destruct (heap st !! cfg).
Qed.

Lemma calls_print (i f : nat) (text : string) :
  calls_at_most (Sampling := Sampling) i f (emit (Printed text)).
Proof. intros st. exists [Printed text]. repeat split; cbn; lia. Qed.

Lemma calls_first_item (i f : nat) (xs : list string) :
  calls_at_most (Sampling := Sampling) i f (first_item xs).
Proof. destruct xs; [apply calls_raise | apply calls_ret]. Qed.

Lemma calls_read_last_user_message (i f : nat) (l : ChatLocals) :
  calls_at_most (Sampling := Sampling) i f (read_last_user_message l).
Proof.
  unfold read_last_user_message.
  destruct (last_user_message l); [apply calls_ret | apply calls_raise].
Qed.

Lemma calls_call_instruct self (i f : nat) (p : string) cfg :
  calls_at_most (S i) f (call_instruct self p cfg).
Proof.
  intros st. unfold call_instruct, bind, deref.
  destruct (heap st !! cfg) as [c|].
  - exists [InstructCall p c]. repeat split; cbn; lia.
  - exists []. cbn [snd]. rewrite app_nil_r. repeat split; cbn; lia.
Qed.

Lemma calls_call_contexts self (i f : nat) (qs : list string) :
  calls_at_most i (S f) (call_contexts self qs).
Proof.
  unfold call_contexts. destruct (rag_interface self);
    [|apply calls_raise].
  intros st. exists [ContextsCall qs]. repeat split; cbn; lia.
Qed.

(** X18: whatever the conversation, the configuration and the backends,
    [get_chat_completion] calls the model backend at most twice and the
    retrieval backend at most once. *)
Theorem chat_calls_bounded self (conversation : list Message) cfg st :
  exists later,
    trace (snd (get_chat_completion self conversation cfg st))
    = (trace st ++ later)%list
    /\ instruct_calls later <= 2
    /\ contexts_calls later <= 1.
Proof.
  enough (H : calls_at_most 2 1 (get_chat_completion self conversation cfg))
    by apply H.
  unfold get_chat_completion.
  apply (calls_bind 0 2 0 1); [apply calls_deref | intros c].
  apply (calls_bind 0 2 0 1); [apply calls_check | intros _].
  cbv zeta.
  apply (calls_bind 0 2 0 1); [apply calls_deref | intros c'].
  destruct (falsy (model_name c')); [apply calls_raise|].
  apply (calls_bind 1 1 1 0).
  - destruct (contains "RAG" (default "" (model_name c')));
      [|apply calls_ret].
    destruct (rag_interface self); [|apply calls_raise].
    apply (calls_bind 0 1 0 1); [apply calls_copy | intros l'].
    apply (calls_bind 0 1 0 1); [apply calls_set_stop_token | intros _].
    apply (calls_bind 1 0 0 1).
    + destruct (Nat.ltb 1 (List.length conversation));
        [|apply calls_read_last_user_message].
      apply (calls_bind 1 0 0 0); [apply calls_call_instruct | intros ?].
      apply calls_ret.
    + intros query.
      apply (calls_bind 0 0 0 1); [apply calls_print | intros _].
      apply (calls_bind 0 0 1 0); [apply calls_call_contexts | intros xs].
      apply (calls_bind 0 0 0 0); [apply calls_first_item | intros x].
      apply calls_ret.
  - intros p.
    apply (calls_bind 1 0 0 0); [apply calls_call_instruct | intros ?].
    apply calls_ret.
Qed.

End Facts.
End InterfaceFacts.

(* ===================================================================== *)
(** * Concrete runs *)
(* ===================================================================== *)

Module ScenarioFacts.
Import Py PyFacts SciPhiFormatter FormatterFacts SciPhiLLMInterface.
Import InterfaceFacts Scenario.

Lemma scripted_llm_first (ctx : string) (c : GenerationConfig unit) :
  answers_nth (interface_with ctx) (store_of c) 0 "[Retrieval]".
Proof.
  intros t p c' H. cbn in H. cbn. now rewrite H.
Qed.

Lemma scripted_llm_second (ctx : string) (c : GenerationConfig unit) :
  answers_nth (interface_with ctx) (store_of c) 1 "final answer".
Proof.
  intros t p c' H. cbn in H. cbn. now rewrite H.
Qed.

Lemma constant_rag_length (ctx : string) (t : list (Event unit))
    (qs : list string) :
  List.length (get_contexts (constant_rag ctx) t qs) = List.length qs.
Proof. cbn. apply length_map. Qed.

Lemma constant_rag_clean (ctx : string) (t : list (Event unit))
    (qs : list string) (x : string) :
  contains END_PARAGRAPH_TOKEN ctx = false ->
  In x (get_contexts (constant_rag ctx) t qs) ->
  contains END_PARAGRAPH_TOKEN x = false.
Proof.
  intros Hctx Hin. cbn in Hin. apply in_map_iff in Hin as [q [<- _]].
  exact Hctx.
Qed.

Lemma store_of_lookup (c : GenerationConfig unit) :
  heap (store_of c) !! 0 = Some c.
Proof. apply lookup_singleton_eq. Qed.

(** C5, as stated, fails: the model backend answers ["[Retrieval]"] and
    then ["final answer"], the retrieval backend returns one context per
    query, and [get_completion] returns ["b</paragraph>final answer"],
    because the context ["a</paragraph>b"] holds a paragraph-end marker
    and the span that is removed ends there. *)
Lemma get_completion_context_leak :
  let self := interface_with "a</paragraph>b" in
  let st := store_of rag_config in
  heap st !! 0 = Some rag_config
  /\ stop_token rag_config = Some "<paragraph>"
  /\ contains "RAG" "SciPhi-Self-RAG-Mistral-7B-32k" = true
  /\ rag_interface self = Some (constant_rag "a</paragraph>b")
  /\ answers_nth self st 0 "[Retrieval]"
  /\ answers_nth self st 1 "final answer"
  /\ (forall t qs,
        List.length (get_contexts (constant_rag "a</paragraph>b") t qs)
        = List.length qs)
  /\ fst (get_completion self 2 "What?" 0 st)
     = Return "b</paragraph>final answer"
  /\ contexts_calls (trace (snd (get_completion self 2 "What?" 0 st))) = 1.
Proof.
  cbv zeta. split; [apply store_of_lookup|].
  do 3 (split; [reflexivity|]).
  split; [apply scripted_llm_first|].
  split; [apply scripted_llm_second|].
  split; [apply constant_rag_length|].
  split; vm_compute; reflexivity.
Qed.

Lemma get_completion_one_retrieval_witness :
  exists context,
    get_completion (interface_with "ctx") 2 "What?" 0 (store_of rag_config)
    = (Return "final answer",
       {| heap := heap (store_of rag_config);
          trace :=
            [ InstructCall (format_prompt "What?") rag_config;
              ContextsCall ["What?"];
              InstructCall
                (format_prompt "What?" ++ RETRIEVAL_TOKEN
                 ++ INIT_PARAGRAPH_TOKEN ++ context
                 ++ END_PARAGRAPH_TOKEN) rag_config ] |}).
Proof.
  apply (get_completion_one_retrieval
           (interface_with "ctx") (constant_rag "ctx") 0 "What?" 0
           (store_of rag_config) rag_config
           "SciPhi-Self-RAG-Mistral-7B-32k").
  - apply store_of_lookup.
  - reflexivity.
  - reflexivity.
  - reflexivity.
  - reflexivity.
  - apply constant_rag_length.
  - intros t qs x. apply constant_rag_clean. reflexivity.
  - apply scripted_llm_first.
  - apply scripted_llm_second.
Defined.

Lemma rag_loop_next_query_witness :
  exists later,
    trace (snd (rag_loop (interface_with "ctx") 2 "What?" 0 ""
                  (store_of rag_config)))
    = ([ InstructCall (format_prompt "What?" ++ "") rag_config;
         ContextsCall ["What?"] ] ++ later)%list.
Proof.
  apply (rag_loop_next_query
           (interface_with "ctx") (constant_rag "ctx") 1 "What?" 0 ""
           (store_of rag_config) rag_config).
  - apply store_of_lookup.
  - reflexivity.
  - reflexivity.
Defined.

Lemma stop_token_gate_witness :
  get_completion (interface_with "ctx") 2 "What?" 0
    (store_of no_stop_config)
  = (Raise (ValueError stop_token_message), store_of no_stop_config)
  /\ get_chat_completion (interface_with "ctx")
       [{| role := "user"; content := "What?" |}] 0
       (store_of no_stop_config)
     = (Raise (ValueError stop_token_message), store_of no_stop_config).
Proof.
  apply (stop_token_gate (interface_with "ctx") 2 "What?"
           [{| role := "user"; content := "What?" |}] 0
           (store_of no_stop_config) no_stop_config).
  - apply store_of_lookup.
  - discriminate.
Defined.

Lemma get_batch_completion_pass_through_witness :
  get_batch_completion (interface_with "ctx") ["[Retrieval]"; "b"] 0
    (store_of no_stop_config)
  = (Return ["[Retrieval]"; "b"],
     {| heap := heap (store_of no_stop_config);
        trace := [BatchInstructCall ["[Retrieval]"; "b"] no_stop_config] |})
  /\ (List.length ["[Retrieval]"; "b"] = List.length ["[Retrieval]"; "b"] ->
      exists r,
        fst (get_batch_completion (interface_with "ctx")
               ["[Retrieval]"; "b"] 0 (store_of no_stop_config))
        = Return r
        /\ List.length r = List.length ["[Retrieval]"; "b"]
        /\ forall i, nth_error r i = nth_error ["[Retrieval]"; "b"] i).
Proof.
  apply (get_batch_completion_pass_through (interface_with "ctx")
           ["[Retrieval]"; "b"] 0 (store_of no_stop_config) no_stop_config).
  apply store_of_lookup.
Defined.

Lemma chat_single_user_query_witness :
  exists final_prompt answer,
    fst (get_chat_completion (interface_with "ctx")
           [{| role := "user"; content := "What?" |}] 0
           (store_of rag_config))
    = Return (remove_cruft answer)
    /\ trace (snd (get_chat_completion (interface_with "ctx")
                     [{| role := "user"; content := "What?" |}] 0
                     (store_of rag_config)))
       = [ Printed ("context_query =  " ++ "What?" ++ nl);
           ContextsCall ["What?"];
           InstructCall final_prompt rag_config ].
Proof.
  apply (proj2 (chat_single_user_query (interface_with "ctx")
                  {| role := "user"; content := "What?" |} 0
                  (store_of rag_config) rag_config
                  "SciPhi-Self-RAG-Mistral-7B-32k"
                  (store_of_lookup rag_config) eq_refl eq_refl eq_refl)
           (constant_rag "ctx")).
  - reflexivity.
  - reflexivity.
  - apply constant_rag_length.
Defined.

Lemma chat_keeps_generation_config_witness :
  heap (snd (get_chat_completion (interface_with "ctx")
               [ {| role := "system"; content := "Be brief." |};
                 {| role := "user"; content := "What?" |} ] 0
               (store_of rag_config))) !! 0
  = Some rag_config.
Proof.
  apply (chat_keeps_generation_config (interface_with "ctx")
           [ {| role := "system"; content := "Be brief." |};
             {| role := "user"; content := "What?" |} ] 0
           (store_of rag_config) rag_config).
  apply store_of_lookup.
Defined.

(** The query-generation call of a conversation of two messages is made
    with the copy, whose stop token is cleared; reference 0 still holds the
    caller's configuration. *)
Example chat_query_call_uses_cleared_copy :
  let run :=
    get_chat_completion (interface_with "ctx")
      [ {| role := "system"; content := "Be brief." |};
        {| role := "user"; content := "What?" |} ] 0 (store_of rag_config) in
  (exists p rest,
      trace (snd run) = InstructCall p no_stop_config :: rest
      /\ instruct_calls rest = 1)
  /\ heap (snd run) !! 0 = Some rag_config
  /\ heap (snd run) !! 1 = Some no_stop_config.
Proof.
  cbv zeta. split; [|split].
  - eexists _, _. split; [vm_compute; reflexivity|]. reflexivity.
  - vm_compute. reflexivity.
  - vm_compute. reflexivity.
Qed.

Lemma chat_single_non_user_fails_witness :
  exists e,
    fst (get_chat_completion (interface_with "ctx")
           [{| role := "system"; content := "Be brief." |}] 0
           (store_of rag_config)) = Raise e
    /\ trace (snd (get_chat_completion (interface_with "ctx")
                     [{| role := "system"; content := "Be brief." |}] 0
                     (store_of rag_config))) = []
    /\ (stop_token rag_config = Some INIT_PARAGRAPH_TOKEN ->
        e = UnboundLocalError "last_user_message").
Proof.
  apply (chat_single_non_user_fails (interface_with "ctx")
           (constant_rag "ctx")
           {| role := "system"; content := "Be brief." |} 0
           (store_of rag_config) rag_config
           "SciPhi-Self-RAG-Mistral-7B-32k").
  - apply store_of_lookup.
  - reflexivity.
  - reflexivity.
  - reflexivity.
  - discriminate.
Defined.

(** ** Runs of the further properties *)

Lemma missing_model_name_witness :
  get_completion (interface_with "ctx") 2 "What?" 0
    (store_of nameless_config)
  = (Raise (ValueError "No model name provided"), store_of nameless_config)
  /\ get_chat_completion (interface_with "ctx") [ask "What?"] 0
       (store_of nameless_config)
     = (Raise (ValueError "No model name provided"),
        store_of nameless_config).
Proof.
  apply (missing_model_name (interface_with "ctx") 2 "What?" [ask "What?"] 0
           (store_of nameless_config) nameless_config).
  - apply store_of_lookup.
  - reflexivity.
  - reflexivity.
Defined.

Lemma rag_without_backend_witness :
  get_completion interface_without_rag 2 "What?" 0 (store_of rag_config)
  = (Raise (ValueError "RAG model requested, but no RAG interface provided"),
     store_of rag_config)
  /\ get_chat_completion interface_without_rag [ask "What?"] 0
       (store_of rag_config)
     = (Raise (ValueError
                 "RAG generation requested but no RAG interface provided"),
        store_of rag_config).
Proof.
  apply (rag_without_backend interface_without_rag 2 "What?" [ask "What?"] 0
           (store_of rag_config) rag_config
           "SciPhi-Self-RAG-Mistral-7B-32k").
  - apply store_of_lookup.
  - reflexivity.
  - reflexivity.
  - reflexivity.
  - reflexivity.
Defined.

Lemma get_completion_plain_witness :
  get_completion looping_interface 0 "What?" 0 (store_of plain_config)
  = (Return "[Retrieval]",
     {| heap := heap (store_of plain_config);
        trace := [InstructCall "What?" plain_config] |}).
Proof.
  apply (get_completion_plain looping_interface 0 "What?" 0
           (store_of plain_config) plain_config "SciPhi-Mistral-7B-32k").
  - apply store_of_lookup.
  - reflexivity.
  - reflexivity.
  - discriminate.
  - reflexivity.
Defined.

Lemma get_completion_no_retrieval_witness :
  get_completion (interface_with "ctx") 1 "What?" 0
    {| heap := {[ 0 := rag_config ]};
       trace := [InstructCall "earlier" rag_config] |}
  = (Return "final answer",
     {| heap := {[ 0 := rag_config ]};
        trace := [ InstructCall "earlier" rag_config;
                   InstructCall (format_prompt "What?") rag_config ] |}).
Proof.
  etransitivity.
  - apply (get_completion_no_retrieval (interface_with "ctx")
             (constant_rag "ctx") 0 "What?" 0
             {| heap := {[ 0 := rag_config ]};
                trace := [InstructCall "earlier" rag_config] |}
             rag_config "SciPhi-Self-RAG-Mistral-7B-32k").
    + apply lookup_singleton_eq.
    + reflexivity.
    + reflexivity.
    + reflexivity.
    + reflexivity.
    + reflexivity.
  - reflexivity.
Defined.

Lemma get_completion_never_returns_witness :
  exists later,
    get_completion looping_interface 3 "What?" 0 (store_of rag_config)
    = (OutOfFuel,
       {| heap := heap (store_of rag_config);
          trace := trace (store_of rag_config) ++ later |})
    /\ instruct_calls later = 3
    /\ contexts_calls later = 3.
Proof.
  apply (get_completion_never_returns looping_interface (constant_rag "ctx")
           3 "What?" 0 (store_of rag_config) rag_config
           "SciPhi-Self-RAG-Mistral-7B-32k").
  - apply store_of_lookup.
  - reflexivity.
  - reflexivity.
  - reflexivity.
  - reflexivity.
  - intros t p c'. reflexivity.
  - intros t q. discriminate.
Defined.

Lemma get_completion_calls_witness :
  exists later,
    snd (get_completion (interface_with "ctx") 2 "What?" 0
           (store_of rag_config))
    = {| heap := heap (store_of rag_config);
         trace := trace (store_of rag_config) ++ later |}
    /\ Forall (loop_event rag_config) later
    /\ match fst (get_completion (interface_with "ctx") 2 "What?" 0
                    (store_of rag_config)) with
       | Return _ => instruct_calls later = S (contexts_calls later)
       | Raise e =>
           e = IndexError /\ instruct_calls later = contexts_calls later
       | OutOfFuel => instruct_calls later = 2 /\ contexts_calls later = 2
       | Wrong => False
       end.
Proof.
  apply (get_completion_calls (interface_with "ctx") (constant_rag "ctx")
           2 "What?" 0 (store_of rag_config) rag_config
           "SciPhi-Self-RAG-Mistral-7B-32k").
  - apply store_of_lookup.
  - reflexivity.
  - reflexivity.
  - reflexivity.
  - reflexivity.
Defined.

Lemma get_completion_trimmed_witness : strip "final answer" = "final answer".
Proof.
  apply (get_completion_trimmed (interface_with "ctx") 2 "What?" 0
           (store_of rag_config) "final answer").
  vm_compute. reflexivity.
Defined.

Lemma chat_plain_witness :
  get_chat_completion (interface_with "ctx")
    [instruct "Be brief."; ask "What?"] 0 (store_of plain_config)
  = (Return "",
     {| heap := heap (store_of plain_config);
        trace :=
          [ InstructCall
              (chat_prompt [instruct "Be brief."; ask "What?"]
               ++ "### Response:" ++ nl) plain_config ] |}).
Proof.
  apply (chat_plain (interface_with "ctx")
           [instruct "Be brief."; ask "What?"] 0
           (store_of plain_config) plain_config "SciPhi-Mistral-7B-32k").
  - apply store_of_lookup.
  - reflexivity.
  - reflexivity.
  - discriminate.
  - reflexivity.
Defined.


Lemma chat_empty_conversation_witness :
  fst (get_chat_completion (interface_with "ctx") [] 0 (store_of rag_config))
  = Raise (UnboundLocalError "last_user_message")
  /\ trace (snd (get_chat_completion (interface_with "ctx") [] 0
                   (store_of rag_config))) = [].
Proof.
  apply (chat_empty_conversation (interface_with "ctx") 0
           (store_of rag_config) rag_config
           "SciPhi-Self-RAG-Mistral-7B-32k"
           (store_of_lookup rag_config) eq_refl eq_refl).
  - discriminate.
  - discriminate.
Defined.

End ScenarioFacts.
